(** * Polar H10 to LSL streamer: notification decoders and vector assembler

    A shallow embedding of [BluetoothApp] from [PolarGUIv3_AEON_MR&LA.py]:
    the two notification callbacks [pmd_data_conv] and [hrm_conv], the
    vector assembler [push], and the order of transport operations issued
    by [async_connect].

    Python values are modelled as the program has them: a [bytearray] is a
    [list byte], an [int] is a [Z], a [float] is a binary64 [float], the
    attributes of [self] are the fields of a record, and a raised exception
    is an outcome that carries the attributes as they were when it was
    raised. *)

From Stdlib Require Import List ZArith Bool Lia Strings.Byte.
From Stdlib Require Import Floats.PrimFloat Numbers.Cyclic.Int63.Uint63.
From Stdlib Require Strings.String.
Import ListNotations.

Set Implicit Arguments.

(** ** Python primitives used by the decoders *)

Module Py.

(** A Python number as it occurs in this program: an [int] or a [float]. *)
Inductive num : Type :=
| Int (z : Z)
| Float (f : float).

(** [math.isnan(x)]: an [int] is converted to a float first and is never
    a NaN. *)
Definition isnan (x : num) : bool :=
  match x with
  | Int _ => false
  | Float f => PrimFloat.is_nan f
  end.

(** [x != 0.0]. *)
Definition ne_zero (x : num) : bool :=
  match x with
  | Int z => negb (z =? 0)%Z
  | Float f => negb (PrimFloat.eqb f PrimFloat.zero)
  end.

(** The value of one element of a [bytearray], in [0, 256). *)
Definition byte_val (b : byte) : Z := Z.of_N (Byte.to_N b).

(** [int.from_bytes(bs, "little")]. *)
Fixpoint from_bytes_little (bs : list byte) : Z :=
  match bs with
  | [] => 0
  | b :: tl => byte_val b + 256 * from_bytes_little tl
  end%Z.

(** [int.from_bytes(bs, "little", signed=True)]: two's complement on
    [8 * len(bs)] bits; the empty sequence reads as [0]. *)
Definition from_bytes_little_signed (bs : list byte) : Z :=
  let u := from_bytes_little bs in
  let bits := (8 * Z.of_nat (length bs))%Z in
  if Z.testbit u (bits - 1) then (u - 2 ^ bits)%Z else u.

(** [l[lo:hi]] for [0 <= lo <= hi]: a slice never raises, it is cut at the
    end of [l]. *)
Definition slice {A} (l : list A) (lo hi : nat) : list A :=
  firstn (hi - lo) (skipn lo l).

(** [range(start, stop, step)] for a positive [step]. *)
Fixpoint range_from (fuel start stop step : nat) : list nat :=
  match fuel with
  | O => []
  | S fuel' =>
      if start <? stop
      then start :: range_from fuel' (start + step) stop step
      else []
  end.

Definition range (start stop step : nat) : list nat :=
  range_from stop start stop step.

(** [struct.unpack_from("<hhh", buf, off)]: three little-endian signed
    16-bit integers, or [struct.error] ([None]) when fewer than 6 bytes
    are left at [off]. *)
Definition unpack_from_hhh (buf : list byte) (off : nat) : option (Z * Z * Z) :=
  if off + 6 <=? length buf then
    Some (from_bytes_little_signed (slice buf off (off + 2)),
          from_bytes_little_signed (slice buf (off + 2) (off + 4)),
          from_bytes_little_signed (slice buf (off + 4) (off + 6)))
  else None.

(** An [int] in [0, 2^63) converted to [float], as [int / float] does
    with its left operand. *)
Definition float_of_int (z : Z) : float :=
  PrimFloat.of_uint63 (Uint63.of_Z z).

End Py.

Import Py.

(** ** Constants *)

(** Start-stream commands (Polar proprietary). *)
Definition ECG_WRITE : list byte :=
  [x02; x00; x00; x01; x82; x00; x01; x01; x0e; x00].

Definition ACC_WRITE : list byte :=
  [x02; x02; x00; x01; xc8; x00; x01; x01; x10; x00;
   x02; x01; x08; x00].

Definition TOTAL_CH : nat := 6.

(** Channel labels registered with the outlet, in the order of
    [connect_to_device]. *)
Inductive channel : Type := ECG | HR | RRI | AccX | AccY | AccZ.


(** ** The attributes of [self] *)

Record app : Type := mkApp {
  last_hr  : num;
  last_rri : num;
  last_acc : list num;
  last_ecg : option num;        (* [None]: the attribute does not exist *)
  outlet   : list (list num);   (* samples given to [push_sample], oldest first *)
  busyvalue : nat
}.

Definition set_last_hr (v : num) (self : app) : app :=
  mkApp v (last_rri self) (last_acc self) (last_ecg self) (outlet self) (busyvalue self).

Definition set_last_rri (v : num) (self : app) : app :=
  mkApp (last_hr self) v (last_acc self) (last_ecg self) (outlet self) (busyvalue self).

Definition set_last_acc (v : list num) (self : app) : app :=
  mkApp (last_hr self) (last_rri self) v (last_ecg self) (outlet self) (busyvalue self).

Definition set_last_ecg (v : num) (self : app) : app :=
  mkApp (last_hr self) (last_rri self) (last_acc self) (Some v) (outlet self) (busyvalue self).

(** [self.outlet.push_sample(vec)]: the sink receives one more vector. *)
Definition push_sample (vec : list num) (self : app) : app :=
  mkApp (last_hr self) (last_rri self) (last_acc self) (last_ecg self)
        (outlet self ++ [vec]) (busyvalue self).

(** The body of [update_busy]: the busy indicator advances by one of its
    four frames. The function is decorated with Kivy's [mainthread]: a
    call from a callback only schedules this body for the next frame of
    the main thread. The model applies it where the call is made, so the
    [busyvalue] of the attributes a callback leaves is the one the main
    thread reaches once it has run the scheduled call. *)
Definition update_busy (self : app) : app :=
  mkApp (last_hr self) (last_rri self) (last_acc self) (last_ecg self)
        (outlet self) ((busyvalue self + 1) mod 4).

(** The attributes set by [connect_to_device] and [add_busy_label], before
    any notification: no [last_ecg] attribute yet. *)
Definition connect_to_device : app :=
  mkApp (Float 0) (Float 0) [Float 0; Float 0; Float 0] None [] 0.

(** ** Outcomes of a callback *)

Inductive exn : Type := IndexError | StructError.

Inductive outcome : Type :=
| Returned (self : app)
| Raised (e : exn) (self : app)      (* attributes at the raise *)
| OutOfFuel (self : app).            (* a loop of the model ran out of fuel *)

Definition bind (o : outcome) (k : app -> outcome) : outcome :=
  match o with
  | Returned self => k self
  | other => other
  end.

Notation "o >>= k" := (bind o k) (at level 50, left associativity).

(** [for x in xs: body(x)], leaving the loop at the first exception. *)
Fixpoint for_each {A} (xs : list A) (body : A -> app -> outcome) (self : app) : outcome :=
  match xs with
  | [] => Returned self
  | x :: xs' => body x self >>= for_each xs' body
  end.

(** ** Vector assembler *)

Definition nan_to_zero (x : num) : num :=
  if isnan x then Float 0 else x.

Definition push (ecg : num) (self : app) : app :=
  let self :=
    if negb (isnan ecg) && ne_zero ecg then set_last_ecg ecg self else self in
  let hr_val := nan_to_zero (last_hr self) in
  let rri_val := nan_to_zero (last_rri self) in
  let acc_vals := map nan_to_zero (last_acc self) in
  let vec := ecg :: hr_val :: rri_val :: acc_vals in
  push_sample vec self.

(** The recurring
    [if hasattr(self, 'last_ecg'): self.push(self.last_ecg) else: self.push(0.0)]. *)
Definition push_last_ecg (self : app) : app :=
  match last_ecg self with
  | Some e => push e self
  | None => push (Float 0) self
  end.

(** ** Combined-data (PMD) frames *)

Definition pmd_data_conv (data : list byte) (self : app) : outcome :=
  match nth_error data 0 with
  | None => Raised IndexError self
  | Some hdr =>
      (if (byte_val hdr =? 0)%Z then
         let payload := skipn 10 data in
         for_each (range 0 (length payload) 3)
           (fun off self =>
              let ecg := from_bytes_little_signed (slice payload off (off + 3)) in
              Returned (push (Int ecg) self))
           self
       else if (byte_val hdr =? 1)%Z then
         let payload := skipn 10 data in
         for_each (range 0 (length payload) 6)
           (fun off self =>
              match unpack_from_hhh payload off with
              | None => Raised StructError self
              | Some (x, y, z) =>
                  let self := set_last_acc [Int x; Int y; Int z] self in
                  Returned (push_last_ecg self)
              end)
           self
       else Returned self)
      >>= fun self => Returned (update_busy self)
  end.

(** ** Heart-rate measurement records *)

(** [int.from_bytes(data[idx:idx+2], "little") / 1024.0 * 1000]. *)
Definition rri_ms (raw : Z) : float :=
  (float_of_int raw / 1024 * 1000)%float.

(** The [while idx + 1 < len(data)] loop; [fuel] bounds its iterations. *)
Fixpoint rr_loop (fuel : nat) (data : list byte) (idx : nat) (self : app) : outcome :=
  if idx + 1 <? length data then
    match fuel with
    | O => OutOfFuel self
    | S fuel' =>
        let self :=
          set_last_rri (Float (rri_ms (from_bytes_little (slice data idx (idx + 2))))) self in
        let idx := idx + 2 in
        rr_loop fuel' data idx (push_last_ecg self)
    end
  else Returned self.

Definition hrm_conv (data : list byte) (self : app) : outcome :=
  match nth_error data 0 with
  | None => Raised IndexError self
  | Some flags =>
      let flags := byte_val flags in
      let idx := 1 in
      let wide := negb (Z.land flags 0x01 =? 0)%Z in
      let hr :=
        if wide
        then Some (from_bytes_little (slice data idx (idx + 2)))
        else option_map byte_val (nth_error data idx) in
      match hr with
      | None => Raised IndexError self
      | Some hr =>
          let self := set_last_hr (Int hr) self in
          let idx := idx + (if wide then 2 else 1) in
          let self := push_last_ecg self in
          if negb (Z.land flags 0x10 =? 0)%Z
          then rr_loop (length data) data idx self
          else Returned self
      end
  end.

(** ** Notifications delivered during a session *)

Inductive notification : Type :=
| PmdNotification (data : list byte)     (* on PMD_DATA, given to [pmd_data_conv] *)
| HrmNotification (data : list byte).    (* on HRM_CHAR, given to [hrm_conv] *)

Definition callback (n : notification) : app -> outcome :=
  match n with
  | PmdNotification data => pmd_data_conv data
  | HrmNotification data => hrm_conv data
  end.

(** The attributes after a callback, however it ended: an exception leaves
    the writes made before it in place. *)
Definition attributes (o : outcome) : app :=
  match o with
  | Returned self | Raised _ self | OutOfFuel self => self
  end.

(** The transport calls the callbacks one notification after the other. *)
Definition deliver (ns : list notification) (self : app) : app :=
  fold_left (fun self n => attributes (callback n self)) ns self.

(** ** Reading the output vector *)

Definition index (c : channel) : nat :=
  match c with
  | ECG => 0 | HR => 1 | RRI => 2 | AccX => 3 | AccY => 4 | AccZ => 5
  end.

Definition field (c : channel) (vec : list num) : option num :=
  nth_error vec (index c).

(** The vector [push] builds from its argument and the attributes. *)
Definition assemble (ecg : num) (self : app) : list num :=
  ecg :: nan_to_zero (last_hr self) :: nan_to_zero (last_rri self)
      :: map nan_to_zero (last_acc self).

(** The ECG value given to [push] by [push_last_ecg]. *)
Definition carried_ecg (self : app) : num :=
  match last_ecg self with
  | Some e => e
  | None => Float 0
  end.

Definition numeric (vec : list num) : Prop :=
  length vec = TOTAL_CH /\ Forall (fun x => isnan x = false) vec.

(** ** The iterations of the two frame loops, by offset *)

(** The ECG value decoded at offset [off] of the sample region. *)
Definition ecg_at (payload : list byte) (off : nat) : num :=
  Int (from_bytes_little_signed (slice payload off (off + 3))).

(** One iteration of the ACC loop at an offset where a whole group is left. *)
Definition acc_tick (payload : list byte) (self : app) (off : nat) : app :=
  push_last_ecg
    (set_last_acc
       [Int (from_bytes_little_signed (slice payload off (off + 2)));
        Int (from_bytes_little_signed (slice payload (off + 2) (off + 4)));
        Int (from_bytes_little_signed (slice payload (off + 4) (off + 6)))]
       self).

(** [p] holds of the [n] consecutive integers from [z] on. *)
Fixpoint all_from (n : nat) (z : Z) (p : Z -> bool) : bool :=
  match n with
  | O => true
  | S n' => p z && all_from n' (z + 1) p
  end.

(** ** Invariants of the attributes *)

(** What every reachable [self] satisfies: three accelerometer values, no
    NaN stored as [last_ecg], and only numeric vectors given to the sink. *)
Definition sound (self : app) : Prop :=
  length (last_acc self) = 3 /\
  (forall e, last_ecg self = Some e -> isnan e = false) /\
  Forall numeric (outlet self).




(** Since the sink held [before], [self'] has only emitted vectors whose
    ECG field is [c], and [c] is still the value it would carry. *)
Definition carries (c : num) (before : list (list num)) (self' : app) : Prop :=
  carried_ecg self' = c /\
  exists added,
    outlet self' = before ++ added /\
    Forall (fun vec => field ECG vec = Some c) added.

(** A combined-data notification with the ECG type tag. *)
Definition is_ecg_frame (n : notification) : bool :=
  match n with
  | PmdNotification data =>
      match nth_error data 0 with
      | Some hdr => (byte_val hdr =? 0)%Z
      | None => false
      end
  | HrmNotification _ => false
  end.



(** ** The heart-rate record, as the specification words it *)

Module HrSpec.

(** HrRecord: flags byte, HR value, ordered RR-interval raw values. *)
Record HrRecord : Type := mkHr {
  hr_flags : Z;
  hr_value : Z;
  rr_raw : list Z
}.

Definition bit0 (flags : Z) : bool := Z.testbit flags 0.
Definition bit4 (flags : Z) : bool := Z.testbit flags 4.

(** Consecutive 16-bit little-endian values until fewer than 2 bytes
    remain. *)
Fixpoint rr_values (bs : list byte) : list Z :=
  match bs with
  | lo :: hi :: tl => (byte_val lo + 256 * byte_val hi)%Z :: rr_values tl
  | _ => []
  end.

(** The RR list is present iff bit 4 is set. *)
Definition rr_list (flags : Z) (bs : list byte) : list Z :=
  if bit4 flags then rr_values bs else [].

(** Byte 0 is the flags byte; bit 0 clear: HR is the byte at offset 1;
    bit 0 set: HR is the 2-byte little-endian integer at offset 1 (what
    is there of it). [None]: the byte at offset 0 or 1 is missing. *)
Definition decode (data : list byte) : option HrRecord :=
  match data with
  | [] => None
  | f :: rest =>
      let flags := byte_val f in
      if bit0 flags then
        Some (mkHr flags (from_bytes_little (firstn 2 rest))
                   (rr_list flags (skipn 2 rest)))
      else
        match rest with
        | [] => None
        | b :: tl => Some (mkHr flags (byte_val b) (rr_list flags tl))
        end
  end.

(** One emission for the HR value, then one per RR value, each with the
    carried ECG value. *)
Definition rr_tick (self : app) (raw : Z) : app :=
  push_last_ecg (set_last_rri (Float (rri_ms raw)) self).

Definition emit (r : HrRecord) (self : app) : app :=
  fold_left rr_tick (rr_raw r) (push_last_ecg (set_last_hr (Int (hr_value r)) self)).

End HrSpec.

(** ** Session lifecycle: the transport operations of [async_connect] *)

Module Session.

Inductive characteristic : Type := PMD_CONTROL | PMD_DATA | HRM_CHAR.

Inductive handler : Type := on_pmd_data | on_hrm.

Inductive ble_op : Type :=
| connect                                     (* entering [async with BleakClient] *)
| read_gatt_char (c : characteristic)
| write_gatt_char (c : characteristic) (data : list byte)
| start_notify (c : characteristic) (cb : handler)
| wait_stop_event
| stop_notify (c : characteristic)
| disconnect.                                 (* leaving [async with BleakClient] *)

(** What the program cannot decide: which operation raises, and whether
    the stop event is ever set. *)
Record transport : Type := mkTransport {
  fails : ble_op -> bool;
  stop_set : bool
}.

Inductive ending : Type := Completed | Failed | Waiting.

Definition is_wait (op : ble_op) : bool :=
  match op with wait_stop_event => true | _ => false end.

(** The awaits of the [async with] body, in program order. *)
Definition body : list ble_op :=
  [ read_gatt_char PMD_CONTROL;
    write_gatt_char PMD_CONTROL ECG_WRITE;
    write_gatt_char PMD_CONTROL ACC_WRITE;
    start_notify PMD_DATA on_pmd_data;
    start_notify HRM_CHAR on_hrm;
    wait_stop_event;
    stop_notify PMD_DATA;
    stop_notify HRM_CHAR ].

(** Awaiting operations one after the other: the first that raises ends
    the body, and waiting on an event that is never set does not return. *)
Fixpoint awaits (env : transport) (ops : list ble_op) : list ble_op * ending :=
  match ops with
  | [] => ([], Completed)
  | op :: rest =>
      if fails env op then ([op], Failed)
      else if is_wait op && negb (stop_set env) then ([op], Waiting)
      else let (tr, e) := awaits env rest in (op :: tr, e)
  end.

(** The operations issued by [async_connect], oldest first. Leaving the
    [async with] block, by return or by exception, disconnects; the
    [except] clause prints the exception. A coroutine abandoned because
    its event loop was stopped has issued a prefix of these operations. *)
Definition async_connect (env : transport) : list ble_op :=
  if fails env connect then [connect]
  else
    let (tr, e) := awaits env body in
    match e with
    | Waiting => connect :: tr
    | Completed | Failed => connect :: tr ++ [disconnect]
    end.

Definition is_disconnect (op : ble_op) : bool :=
  match op with disconnect => true | _ => false end.

Definition is_stop_notify (op : ble_op) : bool :=
  match op with stop_notify _ => true | _ => false end.

Definition is_start_notify (op : ble_op) : bool :=
  match op with start_notify _ _ => true | _ => false end.

(** [stop_scanning], the only place where the stop event is set:
    [self.stop_event.set()], then [asyncio.sleep(5)], which creates a
    coroutine object that is never awaited and so waits for nothing, then
    [self.loop.stop()]. A stopped loop makes [run_until_complete] return
    with the coroutine unfinished, and what the coroutine has not issued
    by then is never issued. Of the operations [async_connect] would
    issue once the event is set, only the first [gap] are: those the loop
    thread gets to before it sees the stop. *)
Definition stop_scanning (env : transport) (gap : nat) : list ble_op :=
  let waiting := async_connect (mkTransport (fails env) false) in
  let resumed := async_connect (mkTransport (fails env) true) in
  firstn (length waiting + gap) resumed.

End Session.

(** ** The busy indicator *)

Module Busy.

Import Strings.String.

(** [BluetoothApp.busychars]. *)
Definition busychars : list string :=
  ["o..."%string; ".o.."%string; "..o."%string; "...o"%string].

(** [self.busychars[self.busyvalue]], the text [update_busy] gives to the
    label; [None]: the index is out of range. *)
Definition label_text (self : app) : option string :=
  nth_error busychars (busyvalue self).

End Busy.

(** ** A further connection on the same application object *)

(** [connect_to_device] called when [self] already has attributes from an
    earlier session: a new outlet, [last_hr], [last_rri] and [last_acc]
    set to 0.0 again; [last_ecg] and [busyvalue] are not assigned. *)
Definition connect_to_device_again (self : app) : app :=
  mkApp (Float 0) (Float 0) [Float 0; Float 0; Float 0]
        (last_ecg self) [] (busyvalue self).

(** ** Ranges of the decoded values *)

Definition int24 (x : num) : Prop :=
  exists z, x = Int z /\ (-8388608 <= z <= 8388607)%Z.

Definition int16 (x : num) : Prop :=
  exists z, x = Int z /\ (-32768 <= z <= 32767)%Z.

(** A stored [last_ecg] is a decoded sample other than 0. *)
Definition ecg_stored_ok (self : app) : Prop :=
  forall e, last_ecg self = Some e ->
            exists z, e = Int z /\ z <> 0%Z /\ (-8388608 <= z <= 8388607)%Z.

(** The three values [struct.unpack_from] reads at [off]. *)
Definition acc_triple (payload : list byte) (off : nat) : list num :=
  [Int (from_bytes_little_signed (slice payload off (off + 2)));
   Int (from_bytes_little_signed (slice payload (off + 2) (off + 4)));
   Int (from_bytes_little_signed (slice payload (off + 4) (off + 6)))].

(** A callback that ended: returned or raised. *)
Definition settled (o : outcome) : Prop :=
  match o with
  | OutOfFuel _ => False
  | _ => True
  end.

(** ** Sample inputs *)

Module Samples.

(** The 9 bytes between the type tag and the sample region. *)
Definition meta : list byte := repeat x00 9.

(** Ten 3-byte ECG samples: 1, -1, 2, -2, 256, 0, 65536, -8388608, 8388607, 3. *)
Definition ecg_samples : list byte :=
  [x01; x00; x00;  xff; xff; xff;  x02; x00; x00;  xfe; xff; xff;
   x00; x01; x00;  x00; x00; x00;  x00; x00; x01;  x00; x00; x80;
   xff; xff; x7f;  x03; x00; x00].

Definition ecg_frame : list byte := x00 :: meta ++ ecg_samples.

(** One accelerometer group: x = 1, y = 2, z = 3. *)
Definition acc_frame : list byte :=
  x01 :: meta ++ [x01; x00; x02; x00; x03; x00].

(** Flags 0x10 (8-bit HR, RR present), HR 60, one RR value 10. *)
Definition hrm_payload : list byte := [x10; x3c; x0a; x00].

(** A transport on which nothing fails and the stop event is set. *)
Definition healthy : Session.transport :=
  Session.mkTransport (fun _ => false) true.

(** Attributes in the middle of a session: HR 72, last ECG 5. *)
Definition streaming : app :=
  mkApp (Int 72) (Float 812.5) [Int 10; Int (-20); Int 1000] (Some (Int 5)) [] 0.

End Samples.

(** * Properties *)

(** ** Python primitives *)

Section PyFacts.

Lemma byte_val_range (b : byte) : (0 <= byte_val b < 256)%Z.
Proof.
  unfold byte_val. pose proof (Byte.to_N_bounded b). lia.
Qed.

Lemma from_bytes_little_pair (lo hi : byte) :
  from_bytes_little [lo; hi] = (byte_val lo + 256 * byte_val hi)%Z.
Proof. cbn [from_bytes_little]. lia. Qed.

Lemma slice_from (A : Type) (l : list A) (lo n : nat) :
  slice l lo (lo + n) = firstn n (skipn lo l).
Proof. unfold slice. f_equal. lia. Qed.

(** [range(start, stop, step)] lists [start + i * step] for the
    [ceil((stop - start) / step)] first values of [i]. *)
Lemma range_from_spec (step : nat) :
  0 < step ->
  forall n r fuel start,
    r < step ->
    n * step + r <= fuel ->
    range_from fuel start (start + (n * step + r)) step =
    map (fun i => start + i * step) (seq 0 (n + if r =? 0 then 0 else 1)).
Proof.
  intros Hstep n. induction n as [|n IH]; intros r fuel start Hr Hfuel.
  - destruct (Nat.eqb_spec r 0) as [->|Hr0]; simpl.
    + destruct fuel; simpl; [reflexivity|].
      replace (start <? start + 0) with false; [reflexivity|].
      symmetry. apply Nat.ltb_ge. lia.
    + destruct fuel as [|fuel]; [lia|]. simpl.
      replace (start <? start + r) with true
        by (symmetry; apply Nat.ltb_lt; lia).
      f_equal; [lia|].
      destruct fuel; simpl; [reflexivity|].
      replace (start + step <? start + r) with false; [reflexivity|].
      symmetry. apply Nat.ltb_ge. lia.
  - destruct fuel as [|fuel]; [simpl in Hfuel; lia|].
    cbn [range_from].
    replace (start <? start + (S n * step + r)) with true
      by (symmetry; apply Nat.ltb_lt; simpl; lia).
    replace (start + (S n * step + r)) with (start + step + (n * step + r))
      by (simpl; lia).
    rewrite IH by (simpl in Hfuel; lia).
    cbn [Nat.add seq map]. f_equal; [lia|].
    rewrite <- seq_shift, map_map.
    apply map_ext. intros i. simpl. lia.
Qed.

Lemma range_spec (stop step : nat) :
  0 < step ->
  range 0 stop step =
  map (fun i => i * step)
      (seq 0 (stop / step + if stop mod step =? 0 then 0 else 1)).
Proof.
  intros Hstep. unfold range.
  pose proof (Nat.div_mod_eq stop step) as Hdm.
  pose proof (Nat.mod_upper_bound stop step ltac:(lia)) as Hlt.
  replace (range_from stop 0 stop step)
    with (range_from stop 0 (0 + (stop / step * step + stop mod step)) step)
    by (f_equal; lia).
  rewrite range_from_spec by lia.
  reflexivity.
Qed.

Lemma range_exact (n step : nat) :
  0 < step -> range 0 (n * step) step = map (fun i => i * step) (seq 0 n).
Proof.
  intros Hstep. rewrite range_spec by assumption.
  rewrite Nat.div_mul by lia. rewrite Nat.Div0.mod_mul. simpl.
  rewrite Nat.add_0_r. reflexivity.
Qed.

(** For a step of 3 the number of offsets is the length rounded up. *)
Lemma range_length_3 (stop : nat) :
  length (range 0 stop 3) = (stop + 2) / 3.
Proof.
  rewrite range_spec by lia. rewrite length_map, length_seq.
  pose proof (Nat.div_mod_eq stop 3) as Hdm.
  pose proof (Nat.mod_upper_bound stop 3 ltac:(lia)) as Hlt.
  pose proof (Nat.div_mod_eq (stop + 2) 3) as Hdm2.
  pose proof (Nat.mod_upper_bound (stop + 2) 3 ltac:(lia)) as Hlt2.
  destruct (Nat.eqb_spec (stop mod 3) 0); lia.
Qed.

End PyFacts.

(** ** The vector assembler *)

Section Assembler.

Lemma push_outlet (ecg : num) (self : app) :
  outlet (push ecg self) = outlet self ++ [assemble ecg self].
Proof.
  unfold push, assemble.
  destruct (negb (isnan ecg) && ne_zero ecg); reflexivity.
Qed.

Lemma push_sets_ecg (ecg : num) (self : app) :
  last_ecg (push ecg self) =
  if negb (isnan ecg) && ne_zero ecg then Some ecg else last_ecg self.
Proof.
  unfold push. destruct (negb (isnan ecg) && ne_zero ecg); reflexivity.
Qed.

Lemma push_keeps (ecg : num) (self : app) :
  last_hr (push ecg self) = last_hr self /\
  last_rri (push ecg self) = last_rri self /\
  last_acc (push ecg self) = last_acc self /\
  busyvalue (push ecg self) = busyvalue self.
Proof.
  unfold push. destruct (negb (isnan ecg) && ne_zero ecg); repeat split.
Qed.

Lemma assemble_ext (ecg : num) (s1 s2 : app) :
  last_hr s1 = last_hr s2 ->
  last_rri s1 = last_rri s2 ->
  last_acc s1 = last_acc s2 ->
  assemble ecg s1 = assemble ecg s2.
Proof. unfold assemble. intros -> -> ->. reflexivity. Qed.

(** Pushing the carried value never changes [last_ecg]: a stored value is
    stored again, and [0.0] is not stored. *)
Lemma carry_keeps_ecg (self : app) :
  last_ecg (push_last_ecg self) = last_ecg self.
Proof.
  unfold push_last_ecg. destruct (last_ecg self) as [e|] eqn:He.
  - rewrite push_sets_ecg, He.
    destruct (negb (isnan e) && ne_zero e); reflexivity.
  - rewrite push_sets_ecg, He. reflexivity.
Qed.

Lemma carry_outlet (self : app) :
  outlet (push_last_ecg self) = outlet self ++ [assemble (carried_ecg self) self].
Proof.
  unfold push_last_ecg, carried_ecg.
  destruct (last_ecg self); apply push_outlet.
Qed.

Lemma carry_keeps (self : app) :
  last_hr (push_last_ecg self) = last_hr self /\
  last_rri (push_last_ecg self) = last_rri self /\
  last_acc (push_last_ecg self) = last_acc self /\
  busyvalue (push_last_ecg self) = busyvalue self.
Proof.
  unfold push_last_ecg. destruct (last_ecg self); apply push_keeps.
Qed.

Lemma carried_after_carry (self : app) :
  carried_ecg (push_last_ecg self) = carried_ecg self.
Proof. unfold carried_ecg. rewrite carry_keeps_ecg. reflexivity. Qed.

Lemma nan_to_zero_numeric (x : num) : isnan (nan_to_zero x) = false.
Proof.
  unfold nan_to_zero. destruct (isnan x) eqn:E; [reflexivity | exact E].
Qed.

Lemma nan_to_zero_id (x : num) : isnan x = false -> nan_to_zero x = x.
Proof. unfold nan_to_zero. intros ->. reflexivity. Qed.

Lemma assemble_numeric (ecg : num) (self : app) :
  isnan ecg = false ->
  length (last_acc self) = 3 ->
  numeric (assemble ecg self).
Proof.
  intros Hecg Hacc. unfold numeric, assemble. split.
  - simpl. rewrite length_map, Hacc. reflexivity.
  - repeat constructor; try assumption; try apply nan_to_zero_numeric.
    apply Forall_map, Forall_forall. intros x _. apply nan_to_zero_numeric.
Qed.

End Assembler.

(** ** Loops *)

Section Loops.

Lemma for_each_returns (A : Type) (f : A -> app -> app)
      (body : A -> app -> outcome) (xs : list A) :
  (forall x s, body x s = Returned (f x s)) ->
  forall self,
    for_each xs body self = Returned (fold_left (fun s x => f x s) xs self).
Proof.
  intros Hbody. induction xs as [|x xs IH]; intros self; simpl.
  - reflexivity.
  - rewrite Hbody. simpl. apply IH.
Qed.

Lemma for_each_app (A : Type) (body : A -> app -> outcome) (xs ys : list A) :
  forall self,
    for_each (xs ++ ys) body self = for_each xs body self >>= for_each ys body.
Proof.
  induction xs as [|x xs IH]; intros self; simpl.
  - reflexivity.
  - destruct (body x self); simpl; [apply IH | reflexivity | reflexivity].
Qed.

(** A property of the attributes that every iteration keeps, however it
    ends, holds when the loop is left. *)
Lemma for_each_invariant (A : Type) (P : app -> Prop)
      (body : A -> app -> outcome) (xs : list A) :
  (forall x s, P s -> P (attributes (body x s))) ->
  forall self, P self -> P (attributes (for_each xs body self)).
Proof.
  intros Hbody. induction xs as [|x xs IH]; intros self HP; simpl.
  - exact HP.
  - specialize (Hbody x self HP).
    destruct (body x self); simpl in *; auto.
Qed.

(** Emissions of a loop whose every iteration pushes one ECG value. *)
Lemma ecg_pushes (A : Type) (sample : A -> num) (xs : list A) :
  forall self,
    let self' := fold_left (fun s x => push (sample x) s) xs self in
    outlet self' = outlet self ++ map (fun x => assemble (sample x) self) xs /\
    last_hr self' = last_hr self /\
    last_rri self' = last_rri self /\
    last_acc self' = last_acc self /\
    busyvalue self' = busyvalue self.
Proof.
  induction xs as [|x xs IH]; intros self; cbn [fold_left map].
  - cbv zeta. rewrite app_nil_r. repeat split.
  - destruct (IH (push (sample x) self)) as (Ho & Hh & Hr & Ha & Hb).
    destruct (push_keeps (sample x) self) as (Hh' & Hr' & Ha' & Hb').
    cbv zeta. rewrite Ho, Hh, Hr, Ha, Hb, push_outlet, <- app_assoc.
    repeat split; try assumption.
    cbn [List.app]. do 2 f_equal. apply map_ext. intros y.
    apply assemble_ext; assumption.
Qed.

End Loops.

(** ** Combined-data frames *)

Section PmdFrames.

Lemma pmd_ecg_frame (data : list byte) (hdr : byte) (self : app) :
  nth_error data 0 = Some hdr ->
  byte_val hdr = 0%Z ->
  exists self',
    pmd_data_conv data self = Returned self' /\
    outlet self' =
      outlet self ++
      map (fun off => assemble (ecg_at (skipn 10 data) off) self)
          (range 0 (length (skipn 10 data)) 3) /\
    last_hr self' = last_hr self /\
    last_rri self' = last_rri self /\
    last_acc self' = last_acc self.
Proof.
  intros Hhdr Htag. unfold pmd_data_conv. rewrite Hhdr, Htag. cbn [Z.eqb].
  cbv zeta.
  rewrite (for_each_returns (fun off s => push (ecg_at (skipn 10 data) off) s))
    by reflexivity.
  cbn [bind]. eexists. split; [reflexivity|].
  destruct (ecg_pushes (ecg_at (skipn 10 data))
                       (range 0 (length (skipn 10 data)) 3) self)
    as (Ho & Hh & Hr & Ha & _).
  cbv zeta in Ho, Hh, Hr, Ha. unfold update_busy. cbn [outlet last_hr last_rri last_acc].
  auto.
Qed.

(** Every ECG frame returns, with one emission per started group of 3
    bytes: the length of the sample region divided by 3, rounded up. *)
Lemma ecg_frame_emission_count (data : list byte) (hdr : byte) (self : app) :
  nth_error data 0 = Some hdr ->
  byte_val hdr = 0%Z ->
  exists self',
    pmd_data_conv data self = Returned self' /\
    length (outlet self') =
      length (outlet self) + (length (skipn 10 data) + 2) / 3.
Proof.
  intros Hhdr Htag.
  destruct (pmd_ecg_frame data self Hhdr Htag) as (self' & Hret & Ho & _).
  exists self'. split; [exact Hret|].
  rewrite Ho, length_app, length_map, range_length_3. reflexivity.
Qed.

Lemma acc_full_groups (payload : list byte) (offs : list nat) :
  (forall off, In off offs -> off + 6 <= length payload) ->
  forall self,
    for_each offs
      (fun off self =>
         match unpack_from_hhh payload off with
         | None => Raised StructError self
         | Some (x, y, z) =>
             let self := set_last_acc [Int x; Int y; Int z] self in
             Returned (push_last_ecg self)
         end) self
    = Returned (fold_left (acc_tick payload) offs self).
Proof.
  induction offs as [|off offs IH]; intros Hin self.
  - reflexivity.
  - cbn [for_each fold_left]. unfold unpack_from_hhh at 1.
    replace (off + 6 <=? length payload) with true
      by (symmetry; apply Nat.leb_le, Hin; left; reflexivity).
    cbn [bind]. apply IH. intros o Ho. apply Hin. right. exact Ho.
Qed.

Lemma acc_ticks_count (payload : list byte) (offs : list nat) :
  forall self,
    length (outlet (fold_left (acc_tick payload) offs self)) =
    length (outlet self) + length offs.
Proof.
  induction offs as [|off offs IH]; intros self; cbn [fold_left length].
  - lia.
  - rewrite IH. unfold acc_tick. rewrite carry_outlet, length_app.
    cbn [length set_last_acc outlet]. lia.
Qed.

(** An ACC frame whose sample region is not a multiple of 6 bytes long
    raises [struct.error], after one emission per whole group. *)
Lemma pmd_acc_frame (data : list byte) (hdr : byte) (self : app) :
  nth_error data 0 = Some hdr ->
  byte_val hdr = 1%Z ->
  let payload := skipn 10 data in
  let groups := map (fun i => i * 6) (seq 0 (length payload / 6)) in
  let self' := fold_left (acc_tick payload) groups self in
  pmd_data_conv data self =
    (if length payload mod 6 =? 0
     then Returned (update_busy self')
     else Raised StructError self') /\
  length (outlet self') = length (outlet self) + length payload / 6.
Proof.
  intros Hhdr Htag payload groups self'.
  split.
  2:{ subst self' groups. rewrite acc_ticks_count, length_map, length_seq.
      reflexivity. }
  unfold pmd_data_conv. rewrite Hhdr, Htag. cbn [Z.eqb]. cbv zeta.
  fold payload.
  pose proof (Nat.div_mod_eq (length payload) 6) as Hdm.
  pose proof (Nat.mod_upper_bound (length payload) 6 ltac:(lia)) as Hlt.
  assert (Hgroups : forall off, In off groups -> off + 6 <= length payload).
  { intros off Hoff. subst groups. apply in_map_iff in Hoff.
    destruct Hoff as (i & <- & Hi). apply in_seq in Hi. lia. }
  rewrite range_spec by lia.
  destruct (Nat.eqb_spec (length payload mod 6) 0) as [Hz|Hnz].
  - rewrite Nat.add_0_r. fold groups.
    rewrite acc_full_groups by exact Hgroups. reflexivity.
  - rewrite seq_app, map_app. fold groups.
    rewrite for_each_app, acc_full_groups by exact Hgroups.
    cbn [bind seq map for_each Nat.add]. unfold unpack_from_hhh.
    replace (length payload / 6 * 6 + 6 <=? length payload) with false
      by (symmetry; apply Nat.leb_gt; lia).
    reflexivity.
Qed.

End PmdFrames.

(** ** Heart-rate records *)

Section HrRecords.

Import HrSpec.

Lemma flags_bit0 (f : byte) :
  negb (Z.land (byte_val f) 0x01 =? 0)%Z = bit0 (byte_val f).
Proof. destruct f; reflexivity. Qed.

Lemma flags_bit4 (f : byte) :
  negb (Z.land (byte_val f) 0x10 =? 0)%Z = bit4 (byte_val f).
Proof. destruct f; reflexivity. Qed.

Lemma skipn_two (A : Type) (l : list A) (idx : nat) :
  idx + 1 < length l ->
  exists x y, skipn idx l = x :: y :: skipn (idx + 2) l.
Proof.
  intros Hlen.
  pose proof (length_skipn idx l) as Hl.
  pose proof (skipn_skipn 2 idx l) as Hs.
  destruct (skipn idx l) as [|x [|y tl]]; simpl in Hl; try lia.
  exists x, y. rewrite Nat.add_comm, <- Hs. reflexivity.
Qed.

Lemma skipn_short (bs : list byte) (idx : nat) :
  length bs <= idx + 1 -> rr_values (skipn idx bs) = [].
Proof.
  intros Hlen. pose proof (length_skipn idx bs) as Hl.
  destruct (skipn idx bs) as [|x [|y tl]]; simpl in Hl; try reflexivity; lia.
Qed.

(** The [while] loop returns within [len(data)] iterations, having made
    one tick per RR value left from [idx] on. *)
Lemma rr_loop_decodes (data : list byte) :
  forall fuel idx self,
    length data - idx <= fuel ->
    rr_loop fuel data idx self =
    Returned (fold_left rr_tick (rr_values (skipn idx data)) self).
Proof.
  induction fuel as [|fuel IH]; intros idx self Hfuel.
  - cbn [rr_loop].
    replace (idx + 1 <? length data) with false
      by (symmetry; apply Nat.ltb_ge; lia).
    rewrite skipn_short by lia. reflexivity.
  - cbn [rr_loop]. destruct (Nat.ltb_spec (idx + 1) (length data)) as [Hlt|Hge].
    + destruct (skipn_two data idx Hlt) as (lo & hi & Hskip).
      rewrite IH by lia.
      rewrite Hskip. cbn [rr_values fold_left]. unfold rr_tick at 3.
      rewrite slice_from, Hskip. cbn [firstn].
      rewrite from_bytes_little_pair. reflexivity.
    + rewrite skipn_short by lia. reflexivity.
Qed.

(** [hrm_conv] decodes the record the specification describes and emits
    it; it raises [IndexError] exactly when the record has no HR byte. *)
Lemma hrm_conv_decode (data : list byte) (self : app) :
  hrm_conv data self =
  match decode data with
  | Some r => Returned (emit r self)
  | None => Raised IndexError self
  end.
Proof.
  destruct data as [|f rest]; [reflexivity|].
  unfold hrm_conv, decode, emit. cbn [nth_error].
  cbv zeta. rewrite flags_bit0, flags_bit4. unfold rr_list.
  destruct (bit0 (byte_val f)).
  - rewrite slice_from. cbn [skipn Nat.add hr_value rr_raw].
    destruct (bit4 (byte_val f)).
    + rewrite rr_loop_decodes by lia. reflexivity.
    + reflexivity.
  - destruct rest as [|b tl]; [reflexivity|].
    cbn [nth_error option_map Nat.add hr_value rr_raw].
    destruct (bit4 (byte_val f)).
    + rewrite rr_loop_decodes by lia. reflexivity.
    + reflexivity.
Qed.

Lemma last_cons_default (A : Type) (l : list A) :
  forall a d d', last (a :: l) d = last (a :: l) d'.
Proof.
  induction l as [|b l IH]; intros a d d'; [reflexivity|].
  change (last (b :: l) d = last (b :: l) d'). apply IH.
Qed.

Lemma rr_tick_facts (raw : Z) (self : app) :
  outlet (rr_tick self raw) =
    outlet self ++
    [assemble (carried_ecg self) (set_last_rri (Float (rri_ms raw)) self)] /\
  last_hr (rr_tick self raw) = last_hr self /\
  last_acc (rr_tick self raw) = last_acc self /\
  last_ecg (rr_tick self raw) = last_ecg self /\
  last_rri (rr_tick self raw) = Float (rri_ms raw).
Proof.
  unfold rr_tick.
  destruct (carry_keeps (set_last_rri (Float (rri_ms raw)) self))
    as (Hh & Hr & Ha & _).
  rewrite carry_outlet, carry_keeps_ecg, Hh, Hr, Ha. repeat split.
Qed.

Lemma rr_ticks (raws : list Z) :
  forall self,
    let self' := fold_left rr_tick raws self in
    outlet self' =
      outlet self ++
      map (fun raw => assemble (carried_ecg self)
                               (set_last_rri (Float (rri_ms raw)) self)) raws /\
    last_hr self' = last_hr self /\
    last_acc self' = last_acc self /\
    last_ecg self' = last_ecg self /\
    last_rri self' = last (map (fun raw => Float (rri_ms raw)) raws) (last_rri self).
Proof.
  induction raws as [|raw raws IH]; intros self; cbn [fold_left map]; cbv zeta.
  - rewrite app_nil_r. repeat split.
  - destruct (IH (rr_tick self raw)) as (Ho & Hh & Ha & He & Hr).
    cbv zeta in Ho, Hh, Ha, He, Hr.
    destruct (rr_tick_facts raw self) as (Ho1 & Hh1 & Ha1 & He1 & Hr1).
    rewrite Ho, Hh, Ha, He, Hr, Ho1, Hh1, Ha1, He1, Hr1, <- app_assoc.
    repeat split.
    + cbn [List.app]. do 2 f_equal. apply map_ext. intros v.
      unfold assemble, carried_ecg.
      cbn [set_last_rri last_hr last_rri last_acc].
      rewrite He1, Hh1, Ha1. reflexivity.
    + destruct raws as [|raw' raws]; [reflexivity|].
      cbn [map]. rewrite (last_cons_default _ _ _ (last_rri self)).
      reflexivity.
Qed.

Lemma emit_outlet (r : HrRecord) (self : app) :
  let self1 := set_last_hr (Int (hr_value r)) self in
  outlet (emit r self) =
    outlet self ++
    assemble (carried_ecg self) self1 ::
    map (fun raw => assemble (carried_ecg self)
                             (set_last_rri (Float (rri_ms raw)) self1))
        (rr_raw r).
Proof.
  cbv zeta. unfold emit.
  destruct (rr_ticks (rr_raw r)
              (push_last_ecg (set_last_hr (Int (hr_value r)) self)))
    as (Ho & _).
  cbv zeta in Ho. rewrite Ho, carry_outlet, <- app_assoc. cbn [List.app].
  do 2 f_equal. apply map_ext. intros v.
  destruct (carry_keeps (set_last_hr (Int (hr_value r)) self))
    as (Hh' & Hr' & Ha' & _).
  unfold assemble, carried_ecg.
  rewrite carry_keeps_ecg. cbn [last_hr last_acc last_rri set_last_rri] in *.
  rewrite Hh', Ha'. reflexivity.
Qed.

Lemma emit_attributes (r : HrRecord) (self : app) :
  last_hr (emit r self) = Int (hr_value r) /\
  last_acc (emit r self) = last_acc self /\
  last_ecg (emit r self) = last_ecg self /\
  last_rri (emit r self) =
    last (map (fun raw => Float (rri_ms raw)) (rr_raw r)) (last_rri self).
Proof.
  unfold emit.
  destruct (rr_ticks (rr_raw r)
              (push_last_ecg (set_last_hr (Int (hr_value r)) self)))
    as (_ & Hh & Ha & He & Hr).
  cbv zeta in Hh, Ha, He, Hr.
  destruct (carry_keeps (set_last_hr (Int (hr_value r)) self))
    as (Hh' & Hr' & Ha' & _).
  rewrite Hh, Ha, He, Hr, Hh', Ha', Hr', carry_keeps_ecg. repeat split.
Qed.

End HrRecords.

(** ** RR-interval values are finite *)

Section RriValues.

Import HrSpec.

Lemma all_from_spec (p : Z -> bool) :
  forall n z,
    all_from n z p = true ->
    forall k, (z <= k < z + Z.of_nat n)%Z -> p k = true.
Proof.
  induction n as [|n IH]; intros z Hall k Hk.
  - simpl in Hk. lia.
  - cbn [all_from] in Hall. apply andb_prop in Hall as [Hz Hrest].
    destruct (Z.eq_dec k z) as [->|Hne]; [exact Hz|].
    apply (IH (z + 1)%Z Hrest). lia.
Qed.

(** Checked on each of the 65536 raw values. *)
Lemma rri_ms_checked :
  all_from (Z.to_nat 65536) 0 (fun v => negb (PrimFloat.is_nan (rri_ms v))) = true.
Proof. vm_compute. reflexivity. Qed.

Lemma rri_ms_numeric (raw : Z) :
  (0 <= raw < 65536)%Z -> isnan (Float (rri_ms raw)) = false.
Proof.
  intros Hraw.
  pose proof (@all_from_spec _ _ _ rri_ms_checked raw) as H.
  cbv beta in H. rewrite Z2Nat.id in H by lia.
  apply negb_true_iff, H. lia.
Qed.

Lemma rr_values_range (bs : list byte) :
  Forall (fun v => 0 <= v < 65536)%Z (rr_values bs).
Proof.
  remember (length bs) as n eqn:Hn.
  assert (Hle : length bs <= n) by lia. clear Hn.
  revert bs Hle. induction n as [|n IH]; intros bs Hle.
  - destruct bs; [constructor | simpl in Hle; lia].
  - destruct bs as [|lo [|hi tl]]; try constructor.
    + pose proof (byte_val_range lo). pose proof (byte_val_range hi). lia.
    + apply IH. simpl in Hle. lia.
Qed.

Lemma rr_list_range (flags : Z) (bs : list byte) :
  Forall (fun v => 0 <= v < 65536)%Z (rr_list flags bs).
Proof.
  unfold rr_list. destruct (bit4 flags); [apply rr_values_range | constructor].
Qed.

Lemma decode_rr_range (data : list byte) (r : HrRecord) :
  decode data = Some r -> Forall (fun v => 0 <= v < 65536)%Z (rr_raw r).
Proof.
  unfold decode. destruct data as [|f rest]; [discriminate|].
  destruct (bit0 (byte_val f)).
  - intros [= <-]. apply rr_list_range.
  - destruct rest as [|b tl]; [discriminate|].
    intros [= <-]. apply rr_list_range.
Qed.

End RriValues.

(** ** What every callback keeps *)

Section Invariants.

Import HrSpec.

Lemma fold_left_invariant (A : Type) (P : app -> Prop) (f : app -> A -> app)
      (xs : list A) :
  (forall s x, P s -> P (f s x)) ->
  forall self, P self -> P (fold_left f xs self).
Proof.
  intros Hf. induction xs as [|x xs IH]; intros self HP; simpl; auto.
Qed.

Lemma busy_after_loop (P : app -> Prop) (o : outcome) :
  (forall s, P s -> P (update_busy s)) ->
  P (attributes o) ->
  P (attributes (o >>= fun self => Returned (update_busy self))).
Proof. intros Hbusy. destruct o; simpl; auto. Qed.

(** *** Soundness *)

Lemma push_sound (ecg : num) (self : app) :
  isnan ecg = false -> sound self -> sound (push ecg self).
Proof.
  intros Hecg (Hacc & Hstored & Hout).
  destruct (push_keeps ecg self) as (_ & _ & Ha & _).
  unfold sound. rewrite Ha, push_outlet, push_sets_ecg. repeat split.
  - exact Hacc.
  - intros e. destruct (negb (isnan ecg) && ne_zero ecg).
    + intros [= <-]. exact Hecg.
    + apply Hstored.
  - apply Forall_app. split; [exact Hout|].
    constructor; [|constructor]. apply assemble_numeric; assumption.
Qed.

Lemma carry_sound (self : app) : sound self -> sound (push_last_ecg self).
Proof.
  intros Hs. unfold push_last_ecg.
  destruct (last_ecg self) as [e|] eqn:He.
  - apply push_sound; [|exact Hs]. destruct Hs as (_ & Hstored & _). auto.
  - apply push_sound; [reflexivity | exact Hs].
Qed.

Lemma acc_body_sound (payload : list byte) (off : nat) (self : app) :
  sound self ->
  sound (attributes
           match unpack_from_hhh payload off with
           | None => Raised StructError self
           | Some (x, y, z) =>
               let self := set_last_acc [Int x; Int y; Int z] self in
               Returned (push_last_ecg self)
           end).
Proof.
  intros Hs. destruct (unpack_from_hhh payload off) as [[[x y] z]|]; [|exact Hs].
  cbn [attributes]. apply carry_sound.
  destruct Hs as (_ & Hstored & Hout). repeat split; assumption.
Qed.

Lemma pmd_data_conv_sound (data : list byte) (self : app) :
  sound self -> sound (attributes (pmd_data_conv data self)).
Proof.
  intros Hs. unfold pmd_data_conv.
  destruct (nth_error data 0) as [hdr|]; [|exact Hs].
  apply busy_after_loop; [intros s Hsound; exact Hsound|].
  destruct (byte_val hdr =? 0)%Z; [|destruct (byte_val hdr =? 1)%Z].
  - apply for_each_invariant; [|exact Hs].
    intros off s Hsound. cbn [attributes]. apply push_sound; [reflexivity | exact Hsound].
  - apply for_each_invariant; [|exact Hs].
    intros off s Hsound. apply acc_body_sound. exact Hsound.
  - exact Hs.
Qed.

Lemma emit_sound (r : HrRecord) (self : app) : sound self -> sound (emit r self).
Proof.
  intros Hs. unfold emit. apply fold_left_invariant.
  - intros s raw Hsound. unfold rr_tick. apply carry_sound. exact Hsound.
  - apply carry_sound. exact Hs.
Qed.

Lemma hrm_conv_sound (data : list byte) (self : app) :
  sound self -> sound (attributes (hrm_conv data self)).
Proof.
  intros Hs. rewrite hrm_conv_decode.
  destruct (decode data) as [r|]; [apply emit_sound|]; exact Hs.
Qed.

Lemma deliver_sound (ns : list notification) (self : app) :
  sound self -> sound (deliver ns self).
Proof.
  unfold deliver. apply fold_left_invariant.
  intros s [data|data] Hsound; cbn [callback].
  - apply pmd_data_conv_sound. exact Hsound.
  - apply hrm_conv_sound. exact Hsound.
Qed.

Lemma connect_to_device_sound : sound connect_to_device.
Proof.
  repeat split; [discriminate | constructor].
Qed.

(** *** Channels that no callback has written yet *)










End Invariants.

(** ** Emissions that carry the last ECG value *)

Section Carrying.

Import HrSpec.

Lemma carry_carries (c : num) (before : list (list num)) (self : app) :
  carries c before self -> carries c before (push_last_ecg self).
Proof.
  intros (Hc & added & Ho & Hall). split.
  - rewrite carried_after_carry. exact Hc.
  - exists (added ++ [assemble c self]). split.
    + rewrite carry_outlet, Ho, Hc, app_assoc. reflexivity.
    + apply Forall_app. split; [exact Hall|]. repeat constructor.
Qed.

Lemma pmd_data_conv_carries (c : num) (before : list (list num))
      (data : list byte) (self : app) :
  is_ecg_frame (PmdNotification data) = false ->
  carries c before self ->
  carries c before (attributes (pmd_data_conv data self)).
Proof.
  intros Htag Hs. unfold pmd_data_conv. cbn [is_ecg_frame] in Htag.
  destruct (nth_error data 0) as [hdr|]; [|exact Hs].
  rewrite Htag.
  apply busy_after_loop; [intros s Hcar; exact Hcar|].
  destruct (byte_val hdr =? 1)%Z; [|exact Hs].
  apply for_each_invariant; [|exact Hs].
  intros off s Hcar.
  destruct (unpack_from_hhh (skipn 10 data) off) as [[[x y] z]|]; [|exact Hcar].
  cbn [attributes]. apply carry_carries. exact Hcar.
Qed.

Lemma hrm_conv_carries (c : num) (before : list (list num))
      (data : list byte) (self : app) :
  carries c before self ->
  carries c before (attributes (hrm_conv data self)).
Proof.
  intros Hs. rewrite hrm_conv_decode.
  destruct (decode data) as [r|]; [|exact Hs].
  cbn [attributes]. unfold emit. apply fold_left_invariant.
  - intros s raw Hcar. unfold rr_tick. apply carry_carries. exact Hcar.
  - apply carry_carries. exact Hs.
Qed.

Lemma deliver_carries (c : num) (before : list (list num))
      (ns : list notification) :
  forallb (fun n => negb (is_ecg_frame n)) ns = true ->
  forall self, carries c before self -> carries c before (deliver ns self).
Proof.
  unfold deliver. induction ns as [|n ns IH]; intros Hns self Hs.
  - exact Hs.
  - cbn [forallb] in Hns. apply andb_prop in Hns as [Hn Hns].
    apply negb_true_iff in Hn. cbn [fold_left]. apply IH; [exact Hns|].
    destruct n as [data|data]; cbn [callback].
    + apply pmd_data_conv_carries; assumption.
    + apply hrm_conv_carries; assumption.
Qed.

End Carrying.

(** * The claims *)

(** ** Session lifecycle *)

Section SessionOrder.

Import Session.

(** C8 (the code departs from the claim): when nothing fails, the session
    issues, in this order, connect, a read of the control characteristic,
    the write of the ECG start command [02 00 00 01 82 00 01 01 0E 00],
    the write of the ACC start command
    [02 02 00 01 C8 00 01 01 10 00 02 01 08 00], the subscription to the
    combined-data characteristic, the subscription to the heart-rate
    characteristic, and the wait for the stop event. On stop, however,
    [stop_scanning] stops the event loop right after it has set the event:
    unless the loop thread gets through three more operations before it
    sees the stop, the connection is never closed, and when it gets
    through none, no channel is unsubscribed either. *)
Theorem C8_stop_scanning_abandons_the_session (env : transport) (gap : nat) :
  forallb (fun op => negb (fails env op)) (connect :: body) = true ->
  gap < 3 ->
  firstn 7 (stop_scanning env gap) =
    [ connect;
      read_gatt_char PMD_CONTROL;
      write_gatt_char PMD_CONTROL
        [x02; x00; x00; x01; x82; x00; x01; x01; x0e; x00];
      write_gatt_char PMD_CONTROL
        [x02; x02; x00; x01; xc8; x00; x01; x01; x10; x00; x02; x01; x08; x00];
      start_notify PMD_DATA on_pmd_data;
      start_notify HRM_CHAR on_hrm;
      wait_stop_event ] /\
  existsb is_disconnect (stop_scanning env gap) = false /\
  existsb is_stop_notify (stop_scanning env 0) = false /\
  stop_scanning env gap =
    firstn (7 + gap)
      (firstn 7 (stop_scanning env gap)
       ++ [stop_notify PMD_DATA; stop_notify HRM_CHAR; disconnect]).
Proof.
  intros Hok Hgap. destruct env as [fails stop].
  unfold stop_scanning, async_connect, body in *.
  cbn [Session.fails Session.stop_set forallb awaits is_wait andb negb] in *.
  repeat match type of Hok with
         | context [fails ?op] =>
             destruct (fails op); cbn [negb andb] in Hok; [discriminate Hok|]
         end.
  cbn.
  destruct gap as [|[|[|gap]]]; [| | |lia]; repeat split.
Qed.

End SessionOrder.

(** ** Combined-data frames *)

Section FrameClaims.

(** C1 (the code departs from the claim): an ECG frame whose sample region
    is 4 bytes long, one whole sample [01 00 00] and the trailing byte
    [FF], returns with two emissions and not with [4 / 3 = 1]: the loop
    runs once per started group of 3 bytes, so the trailing byte is
    decoded as a sample of its own, [-1], emitted, and kept as
    [last_ecg]. *)
Theorem C1_ecg_trailing_byte_is_emitted :
  let data := [x00; x00; x00; x00; x00; x00; x00; x00; x00; x00;
               x01; x00; x00; xff] in
  length (skipn 10 data) = 4 /\
  4 / 3 = 1 /\
  pmd_data_conv data connect_to_device =
    Returned
      (mkApp (Float 0) (Float 0) [Float 0; Float 0; Float 0] (Some (Int (-1)))
             [ [Int 1; Float 0; Float 0; Float 0; Float 0; Float 0];
               [Int (-1); Float 0; Float 0; Float 0; Float 0; Float 0] ]
             1).
Proof. repeat split. Qed.

(** C2 (the code departs from the claim): an ACC frame whose sample region
    is 7 bytes long, one whole group [01 00 02 00 03 00] and the trailing
    byte [07], makes its [7 / 6 = 1] emission and then raises
    [struct.error] on the trailing byte instead of dropping it; the busy
    indicator is not advanced. *)
Theorem C2_acc_trailing_byte_raises :
  let data := [x01; x00; x00; x00; x00; x00; x00; x00; x00; x00;
               x01; x00; x02; x00; x03; x00; x07] in
  length (skipn 10 data) = 7 /\
  7 / 6 = 1 /\
  pmd_data_conv data connect_to_device =
    Raised StructError
      (mkApp (Float 0) (Float 0) [Int 1; Int 2; Int 3] None
             [ [Float 0; Float 0; Float 0; Int 1; Int 2; Int 3] ]
             0).
Proof. repeat split. Qed.

(** C6: an ECG frame with 10 whole 3-byte samples after its 10-byte header
    returns with exactly 10 emissions; the i-th carries the i-th decoded
    signed integer as ECG and, in the other five fields, the HR, RRI and
    accelerometer values of the attributes, which the frame leaves as they
    were. *)
Theorem C6_ten_ecg_samples (self : app) (meta samples : list byte) :
  length meta = 9 ->
  length samples = 30 ->
  exists self',
    pmd_data_conv (x00 :: meta ++ samples) self = Returned self' /\
    outlet self' =
      outlet self ++
      map (fun i =>
             Int (from_bytes_little_signed (firstn 3 (skipn (i * 3) samples)))
             :: nan_to_zero (last_hr self)
             :: nan_to_zero (last_rri self)
             :: map nan_to_zero (last_acc self))
          (seq 0 10) /\
    length (outlet self') = length (outlet self) + 10 /\
    last_hr self' = last_hr self /\
    last_rri self' = last_rri self /\
    last_acc self' = last_acc self.
Proof.
  intros Hmeta Hsamples.
  destruct (@pmd_ecg_frame (x00 :: meta ++ samples) x00 self eq_refl eq_refl)
    as (self' & Hret & Ho & Hh & Hr & Ha).
  assert (Hskip : skipn 10 (x00 :: meta ++ samples) = samples).
  { change (skipn 9 (meta ++ samples) = samples).
    rewrite skipn_app, Hmeta, Nat.sub_diag, skipn_all2 by lia. reflexivity. }
  rewrite Hskip, Hsamples in Ho.
  change 30 with (10 * 3) in Ho. rewrite range_exact, map_map in Ho by lia.
  exists self'. repeat split; try assumption.
  rewrite Ho, length_app, length_map, length_seq. reflexivity.
Qed.

(** C7: a non-empty combined-data payload whose first byte is neither 0x00
    nor 0x01 makes [pmd_data_conv] return without raising; nothing is
    given to the sink and HR, RRI, accelerometer and last ECG values are
    as before (only the busy indicator advances). *)
Theorem C7_unknown_tag_is_ignored (self : app) (hdr : byte) (rest : list byte) :
  byte_val hdr <> 0%Z ->
  byte_val hdr <> 1%Z ->
  exists self',
    pmd_data_conv (hdr :: rest) self = Returned self' /\
    outlet self' = outlet self /\
    last_hr self' = last_hr self /\
    last_rri self' = last_rri self /\
    last_acc self' = last_acc self /\
    last_ecg self' = last_ecg self.
Proof.
  intros H0 H1. exists (update_busy self).
  unfold pmd_data_conv. cbn [nth_error].
  apply Z.eqb_neq in H0, H1. rewrite H0, H1.
  repeat split.
Qed.

End FrameClaims.

(** ** Heart-rate records *)

Section HrClaims.

Import HrSpec.

(** What [hrm_conv] does with a payload that has a flags byte and at least
    one byte after it. *)
Lemma hrm_conv_emits (self : app) (f b1 : byte) (rest : list byte) :
  let flags := byte_val f in
  let wide := Z.testbit flags 0 in
  let hr :=
    if wide then
      match rest with
      | b2 :: _ => (byte_val b1 + 256 * byte_val b2)%Z
      | [] => byte_val b1
      end
    else byte_val b1 in
  let raws :=
    if Z.testbit flags 4
    then rr_values (if wide then skipn 1 rest else rest)
    else [] in
  let ms v := Float (float_of_int v / 1024 * 1000) in
  let accs := map nan_to_zero (last_acc self) in
  exists self',
    hrm_conv (f :: b1 :: rest) self = Returned self' /\
    last_hr self' = Int hr /\
    last_rri self' = last (map ms raws) (last_rri self) /\
    last_acc self' = last_acc self /\
    last_ecg self' = last_ecg self /\
    outlet self' =
      outlet self ++
      (carried_ecg self :: Int hr :: nan_to_zero (last_rri self) :: accs) ::
      map (fun v => carried_ecg self :: Int hr :: ms v :: accs) raws.
Proof.
  cbv zeta.
  set (hr := if Z.testbit (byte_val f) 0 then _ else _).
  set (raws := if Z.testbit (byte_val f) 4 then _ else _).
  assert (Hdec : decode (f :: b1 :: rest) = Some (mkHr (byte_val f) hr raws)).
  { subst hr raws. unfold decode, rr_list, bit0, bit4.
    destruct (Z.testbit (byte_val f) 0); [|reflexivity].
    do 2 f_equal. destruct rest as [|b2 tl]; cbn [firstn from_bytes_little]; lia. }
  pose proof (decode_rr_range _ Hdec) as Hrange. cbn [rr_raw] in Hrange.
  exists (emit (mkHr (byte_val f) hr raws) self).
  rewrite hrm_conv_decode, Hdec.
  destruct (emit_attributes (mkHr (byte_val f) hr raws) self) as (Hh & Ha & He & Hr).
  rewrite emit_outlet. cbn [hr_value rr_raw] in *.
  repeat split; try assumption.
  do 2 f_equal. apply map_ext_in. intros v Hv.
  rewrite Forall_forall in Hrange. specialize (Hrange v Hv).
  unfold assemble. cbn [set_last_rri set_last_hr last_hr last_rri last_acc].
  rewrite (@nan_to_zero_id (Float (rri_ms v)))
    by (apply rri_ms_numeric; exact Hrange).
  reflexivity.
Qed.

(** C3: in a heart-rate payload byte 0 is the flags byte. With bit 0 clear
    the HR value is the byte at offset 1; with bit 0 set it is the 2-byte
    little-endian integer at offset 1 (the byte at offset 1 alone when
    there is no second one). RR values are decoded exactly when bit 4 is
    set: consecutive 16-bit little-endian values after the HR value until
    fewer than 2 bytes remain, each raw value [v] stored and emitted as
    the float [v / 1024.0 * 1000.0]. *)
Theorem C3_hr_record_decoding (self : app) (f b1 : byte) (rest : list byte) :
  let flags := byte_val f in
  let wide := Z.testbit flags 0 in
  let hr :=
    if wide then
      match rest with
      | b2 :: _ => (byte_val b1 + 256 * byte_val b2)%Z
      | [] => byte_val b1
      end
    else byte_val b1 in
  let raws :=
    if Z.testbit flags 4
    then rr_values (if wide then skipn 1 rest else rest)
    else [] in
  let ms v := Float (float_of_int v / 1024 * 1000) in
  exists self',
    hrm_conv (f :: b1 :: rest) self = Returned self' /\
    last_hr self' = Int hr /\
    last_rri self' = last (map ms raws) (last_rri self) /\
    map (field RRI) (skipn (S (length (outlet self))) (outlet self')) =
      map (fun v => Some (ms v)) raws.
Proof.
  cbv zeta.
  destruct (hrm_conv_emits self f b1 rest) as (self' & Hret & Hh & Hr & _ & _ & Ho).
  cbv zeta in Hh, Hr, Ho.
  exists self'. repeat split; try assumption.
  rewrite Ho.
  rewrite skipn_app, skipn_all2, Nat.sub_succ_l, Nat.sub_diag by lia.
  cbn [List.app skipn]. rewrite map_map. reflexivity.
Qed.

(** C5: a heart-rate payload gives exactly one emission for the HR value,
    carrying the last ECG value (or 0.0), followed by exactly one emission
    per decoded RR value, in the order of the payload. For the payload
    [10 3C 0A 00] the HR is 60, the RR interval is 9.765625 ms (between
    9.75 and 9.78125), and there are exactly two emissions: the HR tick (still with the earlier RRI),
    then the RR tick. *)
Theorem C5_hr_emissions (self : app) (f b1 : byte) (rest : list byte) :
  let flags := byte_val f in
  let raws :=
    if Z.testbit flags 4
    then rr_values (if Z.testbit flags 0 then skipn 1 rest else rest)
    else [] in
  let accs := map nan_to_zero (last_acc self) in
  (exists self' hr_tick rr_ticks,
      hrm_conv (f :: b1 :: rest) self = Returned self' /\
      outlet self' = outlet self ++ hr_tick :: rr_ticks /\
      hr_tick = [carried_ecg self; last_hr self'; nan_to_zero (last_rri self)] ++ accs /\
      rr_ticks =
        map (fun v => [carried_ecg self; last_hr self';
                       Float (float_of_int v / 1024 * 1000)] ++ accs) raws /\
      length (outlet self') = length (outlet self) + 1 + length raws) /\
  (exists self',
      hrm_conv [x10; x3c; x0a; x00] self = Returned self' /\
      last_hr self' = Int 60 /\
      last_rri self' = Float 9.765625 /\
      (9.75 <? 9.765625)%float && (9.765625 <? 9.78125)%float = true /\
      outlet self' =
        outlet self ++
        [ [carried_ecg self; Int 60; nan_to_zero (last_rri self)] ++ accs;
          [carried_ecg self; Int 60; Float 9.765625] ++ accs ]).
Proof.
  cbv zeta. split.
  - destruct (hrm_conv_emits self f b1 rest)
      as (self' & Hret & Hh & _ & _ & _ & Ho).
    cbv zeta in Hh, Ho.
    exists self'. do 2 eexists.
    split; [exact Hret|]. split; [exact Ho|].
    rewrite Hh. repeat split.
    rewrite Ho, length_app. cbn [length]. rewrite length_map. lia.
  - destruct (hrm_conv_emits self x10 x3c [x0a; x00])
      as (self' & Hret & Hh & Hr & _ & _ & Ho).
    exists self'. repeat split; assumption.
Qed.

(** C10: with flags bit 0 set, [hrm_conv] returns whatever the length of
    the payload: the HR value is the little-endian reading of the at most
    two bytes after the flags byte, 0 when there is none, and with fewer
    than two such bytes there is exactly one emission. With bit 0 clear, a
    payload of the flags byte alone raises [IndexError] (the read of
    [data[1]] is out of range) and changes nothing. *)
Theorem C10_wide_hr_never_fails (self : app) (f : byte) (rest : list byte) :
  if Z.testbit (byte_val f) 0 then
    exists self',
      hrm_conv (f :: rest) self = Returned self' /\
      last_hr self' = Int (from_bytes_little (firstn 2 rest)) /\
      match rest with
      | [] =>
          last_hr self' = Int 0 /\
          outlet self' = outlet self ++ [assemble (carried_ecg self) self']
      | [b] =>
          last_hr self' = Int (byte_val b) /\
          outlet self' = outlet self ++ [assemble (carried_ecg self) self']
      | _ :: _ :: _ =>
          length (outlet self) < length (outlet self')
      end
  else
    hrm_conv [f] self = Raised IndexError self.
Proof.
  destruct (Z.testbit (byte_val f) 0) eqn:Hwide.
  - set (r := mkHr (byte_val f) (from_bytes_little (firstn 2 rest))
                   (rr_list (byte_val f) (skipn 2 rest))).
    assert (Hdec : decode (f :: rest) = Some r).
    { unfold decode, bit0. rewrite Hwide. reflexivity. }
    exists (emit r self). rewrite hrm_conv_decode, Hdec.
    destruct (emit_attributes r self) as (Hh & Ha & He & Hr).
    pose proof (emit_outlet r self) as Ho. cbv zeta in Ho.
    cbn [hr_value rr_raw r] in *.
    split; [reflexivity|]. split; [exact Hh|].
    assert (Hnone : forall bs, rr_list (byte_val f) bs = [] ->
              skipn 2 rest = bs ->
              outlet (emit r self) =
              outlet self ++ [assemble (carried_ecg self) (emit r self)]).
    { intros bs Hnil Hbs. rewrite Hbs, Hnil in Ho, Hr. rewrite Ho.
      cbn [map]. do 2 f_equal. unfold assemble.
      rewrite Hh, Ha, Hr. reflexivity. }
    assert (Hnil : rr_list (byte_val f) [] = []).
    { unfold rr_list. destruct (bit4 (byte_val f)); reflexivity. }
    destruct rest as [|b [|b' tl]].
    + split; [exact Hh | apply (Hnone [] Hnil eq_refl)].
    + split; [rewrite Hh; cbn [firstn from_bytes_little]; f_equal; lia
             | apply (Hnone [] Hnil eq_refl)].
    + rewrite Ho, length_app. cbn [length]. lia.
  - rewrite hrm_conv_decode. unfold decode, bit0. rewrite Hwide. reflexivity.
Qed.

End HrClaims.

(** ** The output vectors *)

Section VectorClaims.

(** C9: [push] stores its argument as [last_ecg] only when it is neither
    NaN nor equal to 0.0. An ECG frame with the single sample [00 00 00]
    emits a vector whose ECG field is 0 and leaves [last_ecg] as it was,
    so every emission of the heart-rate and accelerometer notifications
    that follow carries the ECG value stored before the zero sample, or
    0.0 when none was stored. *)
Theorem C9_zero_sample_is_not_carried
        (self : app) (ecg : num) (meta : list byte) (ns : list notification) :
  length meta = 9 ->
  forallb (fun n => negb (is_ecg_frame n)) ns = true ->
  last_ecg (push ecg self) =
    (if negb (isnan ecg) && ne_zero ecg then Some ecg else last_ecg self) /\
  exists self',
    pmd_data_conv (x00 :: meta ++ [x00; x00; x00]) self = Returned self' /\
    outlet self' =
      outlet self ++
      [ Int 0 :: nan_to_zero (last_hr self) :: nan_to_zero (last_rri self)
              :: map nan_to_zero (last_acc self) ] /\
    last_ecg self' = last_ecg self /\
    exists added,
      outlet (deliver ns self') = outlet self' ++ added /\
      Forall (fun vec =>
                field ECG vec =
                Some (match last_ecg self with Some e => e | None => Float 0 end))
             added.
Proof.
  intros Hmeta Hns. split; [apply push_sets_ecg|].
  assert (Hskip : skipn 10 (x00 :: meta ++ [x00; x00; x00]) = [x00; x00; x00]).
  { change (skipn 9 (meta ++ [x00; x00; x00]) = [x00; x00; x00]).
    rewrite skipn_app, Hmeta, Nat.sub_diag, skipn_all2 by lia. reflexivity. }
  unfold pmd_data_conv. cbn [nth_error]. change (byte_val x00 =? 0)%Z with true.
  cbv iota zeta. rewrite Hskip.
  change (range 0 (length [x00; x00; x00]) 3) with [0].
  cbn [for_each bind].
  change (from_bytes_little_signed (slice [x00; x00; x00] 0 (0 + 3))) with 0%Z.
  eexists. split; [reflexivity|].
  assert (He : last_ecg (update_busy (push (Int 0) self)) = last_ecg self).
  { unfold update_busy. cbn [last_ecg]. rewrite push_sets_ecg. reflexivity. }
  split; [|split; [exact He|]].
  - unfold update_busy. cbn [outlet]. rewrite push_outlet. reflexivity.
  - assert (Hcar : carries (carried_ecg self)
                           (outlet (update_busy (push (Int 0) self)))
                           (update_busy (push (Int 0) self))).
    { split.
      - unfold carried_ecg. rewrite He. reflexivity.
      - exists []. rewrite app_nil_r. split; [reflexivity | constructor]. }
    destruct (deliver_carries ns Hns Hcar) as (_ & added & Ho & Hall).
    exists added. split; assumption.
Qed.


End VectorClaims.

(** ** The claims on sample inputs *)

Section OnSamples.

Import Samples.

Lemma C6_ten_ecg_samples_witness :
  length meta = 9 /\
  length ecg_samples = 30 /\
  exists self',
    pmd_data_conv ecg_frame streaming = Returned self' /\
    length (outlet self') = 10 /\
    map (field ECG) (outlet self') =
      map (fun z => Some (Int z))
          [1; -1; 2; -2; 256; 0; 65536; -8388608; 8388607; 3]%Z /\
    map (field HR) (outlet self') = repeat (Some (Int 72)) 10.
Proof.
  split; [reflexivity|]. split; [reflexivity|].
  destruct (@C6_ten_ecg_samples streaming meta ecg_samples eq_refl eq_refl)
    as (self' & Hret & Ho & Hlen & _).
  exists self'. split; [exact Hret|]. split; [exact Hlen|].
  rewrite Ho. split; reflexivity.
Defined.

Lemma C7_unknown_tag_is_ignored_witness :
  byte_val x02 <> 0%Z /\
  byte_val x02 <> 1%Z /\
  exists self',
    pmd_data_conv (x02 :: meta ++ ecg_samples) streaming = Returned self' /\
    outlet self' = [] /\
    last_ecg self' = Some (Int 5).
Proof.
  assert (H0 : byte_val x02 <> 0%Z) by (vm_compute; discriminate).
  assert (H1 : byte_val x02 <> 1%Z) by (vm_compute; discriminate).
  split; [exact H0|]. split; [exact H1|].
  destruct (@C7_unknown_tag_is_ignored streaming x02 (meta ++ ecg_samples) H0 H1)
    as (self' & Hret & Ho & _ & _ & _ & He).
  exists self'. repeat split; assumption.
Defined.

Lemma C9_zero_sample_is_not_carried_witness :
  length meta = 9 /\
  forallb (fun n => negb (is_ecg_frame n))
          [HrmNotification hrm_payload; PmdNotification acc_frame] = true /\
  last_ecg (push (Int 0) streaming) = Some (Int 5) /\
  exists self',
    pmd_data_conv (x00 :: meta ++ [x00; x00; x00]) streaming = Returned self' /\
    map (field ECG) (outlet self') = [Some (Int 0)] /\
    exists added,
      outlet (deliver [HrmNotification hrm_payload; PmdNotification acc_frame] self') =
        outlet self' ++ added /\
      Forall (fun vec => field ECG vec = Some (Int 5)) added.
Proof.
  split; [reflexivity|]. split; [reflexivity|].
  destruct (@C9_zero_sample_is_not_carried streaming (Int 0) meta
              [HrmNotification hrm_payload; PmdNotification acc_frame]
              eq_refl eq_refl)
    as (Hpush & self' & Hret & Ho & _ & added & Hadd & Hall).
  split; [exact Hpush|].
  exists self'. split; [exact Hret|]. split; [rewrite Ho; reflexivity|].
  exists added. split; assumption.
Defined.


Lemma C8_stop_scanning_abandons_the_session_witness :
  forallb (fun op => negb (Session.fails healthy op))
          (Session.connect :: Session.body) = true /\
  0 < 3 /\
  Session.stop_scanning healthy 0 =
    [ Session.connect;
      Session.read_gatt_char Session.PMD_CONTROL;
      Session.write_gatt_char Session.PMD_CONTROL ECG_WRITE;
      Session.write_gatt_char Session.PMD_CONTROL ACC_WRITE;
      Session.start_notify Session.PMD_DATA Session.on_pmd_data;
      Session.start_notify Session.HRM_CHAR Session.on_hrm;
      Session.wait_stop_event ] /\
  existsb Session.is_disconnect (Session.stop_scanning healthy 0) = false.
Proof.
  split; [reflexivity|]. split; [lia|].
  destruct (@C8_stop_scanning_abandons_the_session healthy 0 eq_refl ltac:(lia))
    as (Htrace & Hnone & _).
  split; [exact Htrace | exact Hnone].
Defined.

Lemma C10_wide_hr_never_fails_witness :
  (exists self',
      hrm_conv [x01] streaming = Returned self' /\
      last_hr self' = Int 0 /\
      length (outlet self') = 1) /\
  (exists self',
      hrm_conv [x11; x3c] streaming = Returned self' /\
      last_hr self' = Int 60 /\
      length (outlet self') = 1) /\
  hrm_conv [x10] streaming = Raised IndexError streaming.
Proof.
  split; [|split].
  - destruct (C10_wide_hr_never_fails streaming x01 [])
      as (self' & Hret & _ & Hh & Ho).
    exists self'. rewrite Ho. repeat split; assumption.
  - destruct (C10_wide_hr_never_fails streaming x11 [x3c])
      as (self' & Hret & _ & Hh & Ho).
    exists self'. rewrite Ho. repeat split; assumption.
  - exact (C10_wide_hr_never_fails streaming x10 []).
Defined.

End OnSamples.

(** * Further properties of the callbacks *)

(** ** Ranges of the integers read from bytes *)

Section Ranges.

Lemma pow_bytes (n : nat) :
  (2 ^ (8 * Z.of_nat (S n)) = 256 * 2 ^ (8 * Z.of_nat n))%Z.
Proof.
  replace (8 * Z.of_nat (S n))%Z with (8 + 8 * Z.of_nat n)%Z by lia.
  rewrite Z.pow_add_r by lia. reflexivity.
Qed.

Lemma from_bytes_little_range (bs : list byte) :
  (0 <= from_bytes_little bs < 2 ^ (8 * Z.of_nat (length bs)))%Z.
Proof.
  induction bs as [|b bs IH].
  - simpl. lia.
  - cbn [from_bytes_little length]. rewrite pow_bytes.
    pose proof (byte_val_range b). lia.
Qed.

(** Two's complement on [n] bytes. *)
Lemma from_bytes_little_signed_exact (bs : list byte) :
  bs <> [] ->
  let half := (2 ^ (8 * Z.of_nat (length bs) - 1))%Z in
  (- half <= from_bytes_little_signed bs < half)%Z.
Proof.
  intros Hne. cbv zeta. unfold from_bytes_little_signed.
  pose proof (from_bytes_little_range bs) as Hu.
  set (u := from_bytes_little bs) in *.
  assert (Hlen : 0 < length bs) by (destruct bs; [congruence | simpl; lia]).
  set (bits := (8 * Z.of_nat (length bs))%Z) in *.
  assert (Hbits : (0 < bits)%Z) by (subst bits; lia).
  assert (Hpow : (2 ^ bits = 2 * 2 ^ (bits - 1))%Z).
  { replace bits with (1 + (bits - 1))%Z at 1 by lia.
    rewrite Z.pow_add_r by lia. reflexivity. }
  assert (Hh : (0 < 2 ^ (bits - 1))%Z) by (apply Z.pow_pos_nonneg; lia).
  set (h := (2 ^ (bits - 1))%Z) in *.
  pose proof (Z.div_mod u h ltac:(lia)) as Hdm.
  pose proof (Z.mod_pos_bound u h Hh) as Hm.
  assert (Hq : (0 <= u / h < 2)%Z).
  { split; [apply Z.div_pos; lia | apply Z.div_lt_upper_bound; lia]. }
  destruct (Z.testbit u (bits - 1)) eqn:Hbit.
  - apply Z.testbit_true in Hbit; [|lia]. fold h in Hbit.
    assert (u / h = 1)%Z.
    { destruct (Z.eq_dec (u / h) 0) as [E|E]; [rewrite E in Hbit; discriminate | lia]. }
    nia.
  - assert (u / h = 0)%Z.
    { destruct (Z.eq_dec (u / h) 1) as [E|E]; [|lia].
      assert (Z.testbit u (bits - 1) = true)
        by (apply Z.testbit_true; [lia | fold h; rewrite E; reflexivity]).
      congruence. }
    nia.
Qed.

Lemma from_bytes_little_signed_range (n : nat) (bs : list byte) :
  0 < n ->
  length bs <= n ->
  (- 2 ^ (8 * Z.of_nat n - 1) <= from_bytes_little_signed bs
   < 2 ^ (8 * Z.of_nat n - 1))%Z.
Proof.
  intros Hn Hlen. destruct bs as [|b bs].
  - assert (0 < 2 ^ (8 * Z.of_nat n - 1))%Z by (apply Z.pow_pos_nonneg; lia).
    change (from_bytes_little_signed []) with 0%Z. lia.
  - pose proof (@from_bytes_little_signed_exact (b :: bs) ltac:(discriminate)) as H.
    cbv zeta in H.
    assert (2 ^ (8 * Z.of_nat (length (b :: bs)) - 1)
            <= 2 ^ (8 * Z.of_nat n - 1))%Z.
    { apply Z.pow_le_mono_r; [lia|]. simpl length in *. lia. }
    lia.
Qed.

Lemma slice_length (A : Type) (l : list A) (lo n : nat) :
  length (slice l lo (lo + n)) <= n.
Proof. rewrite slice_from. apply firstn_le_length. Qed.

Lemma ecg_at_int24 (payload : list byte) (off : nat) :
  int24 (ecg_at payload off).
Proof.
  unfold ecg_at. eexists. split; [reflexivity|].
  pose proof (@from_bytes_little_signed_range 3 (slice payload off (off + 3))
                ltac:(lia) (slice_length payload off 3)) as H.
  change (2 ^ (8 * Z.of_nat 3 - 1))%Z with 8388608%Z in H. lia.
Qed.

Lemma acc_triple_int16 (payload : list byte) (off : nat) :
  Forall int16 (acc_triple payload off).
Proof.
  assert (H : forall o, int16 (Int (from_bytes_little_signed
                                    (slice payload o (o + 2))))).
  { intros o. eexists. split; [reflexivity|].
    pose proof (@from_bytes_little_signed_range 2 (slice payload o (o + 2))
                  ltac:(lia) (slice_length payload o 2)) as H.
    change (2 ^ (8 * Z.of_nat 2 - 1))%Z with 32768%Z in H. lia. }
  unfold acc_triple.
  replace (off + 4) with (off + 2 + 2) by lia.
  replace (off + 6) with (off + 4 + 2) by lia.
  replace (off + 2 + 2) with (off + 4) at 2 by lia.
  repeat constructor; apply H.
Qed.

End Ranges.

(** ** Combined-data frames, whatever their length *)

Section AnyFrame.

Lemma acc_ticks (payload : list byte) (offs : list nat) :
  forall self,
    let self' := fold_left (acc_tick payload) offs self in
    outlet self' =
      outlet self ++
      map (fun off =>
             carried_ecg self :: nan_to_zero (last_hr self)
               :: nan_to_zero (last_rri self) :: acc_triple payload off) offs /\
    last_hr self' = last_hr self /\
    last_rri self' = last_rri self /\
    last_ecg self' = last_ecg self /\
    busyvalue self' = busyvalue self /\
    last_acc self' = last (map (acc_triple payload) offs) (last_acc self).
Proof.
  induction offs as [|off offs IH]; intros self; cbn [fold_left map]; cbv zeta.
  - rewrite app_nil_r. repeat split.
  - destruct (IH (acc_tick payload self off)) as (Ho & Hh & Hr & He & Hb & Ha).
    cbv zeta in Ho, Hh, Hr, He, Hb, Ha.
    assert (Htick :
      outlet (acc_tick payload self off) =
        outlet self ++
        [carried_ecg self :: nan_to_zero (last_hr self)
           :: nan_to_zero (last_rri self) :: acc_triple payload off] /\
      last_hr (acc_tick payload self off) = last_hr self /\
      last_rri (acc_tick payload self off) = last_rri self /\
      last_ecg (acc_tick payload self off) = last_ecg self /\
      busyvalue (acc_tick payload self off) = busyvalue self /\
      last_acc (acc_tick payload self off) = acc_triple payload off).
    { unfold acc_tick.
      destruct (carry_keeps (set_last_acc (acc_triple payload off) self))
        as (H1 & H2 & H3 & H4).
      unfold acc_triple in *.
      rewrite carry_outlet, carry_keeps_ecg, H1, H2, H3, H4.
      repeat split. }
    destruct Htick as (Ho1 & Hh1 & Hr1 & He1 & Hb1 & Ha1).
    rewrite Ho, Hh, Hr, He, Hb, Ha, Ho1, Hh1, Hr1, He1, Hb1, Ha1, <- app_assoc.
    repeat split.
    + cbn [List.app]. do 2 f_equal. apply map_ext. intros o.
      unfold carried_ecg. rewrite ?He1, ?Hh1, ?Hr1. reflexivity.
    + destruct offs as [|off' offs]; [reflexivity|].
      cbn [map]. rewrite (last_cons_default _ _ _ (last_acc self)). reflexivity.
Qed.

Lemma for_each_settled (A : Type) (body : A -> app -> outcome) (xs : list A) :
  (forall x s, settled (body x s)) ->
  forall self, settled (for_each xs body self).
Proof.
  intros Hbody. induction xs as [|x xs IH]; intros self; cbn [for_each].
  - exact I.
  - specialize (Hbody x self). destruct (body x self); cbn [bind]; auto.
Qed.

(** X1: an ECG frame never raises, whatever its length: it returns after
    one emission per started group of 3 bytes of the sample region (its
    length divided by 3, rounded up; none for a frame of 10 bytes or
    fewer), leaves HR, RRI and accelerometer values as they were and
    advances the busy indicator by one. *)
Theorem X1_ecg_frame_returns (self : app) (rest : list byte) :
  exists self',
    pmd_data_conv (x00 :: rest) self = Returned self' /\
    length (outlet self') = length (outlet self) + (length (skipn 9 rest) + 2) / 3 /\
    outlet self' =
      outlet self ++
      map (fun i =>
             Int (from_bytes_little_signed (firstn 3 (skipn (i * 3) (skipn 9 rest))))
             :: nan_to_zero (last_hr self)
             :: nan_to_zero (last_rri self)
             :: map nan_to_zero (last_acc self))
          (seq 0 ((length (skipn 9 rest) + 2) / 3)) /\
    last_hr self' = last_hr self /\
    last_rri self' = last_rri self /\
    last_acc self' = last_acc self.
Proof.
  destruct (@pmd_ecg_frame (x00 :: rest) x00 self eq_refl eq_refl)
    as (self' & Hret & Ho & Hh & Hr & Ha).
  change (skipn 10 (x00 :: rest)) with (skipn 9 rest) in Ho.
  exists self'. split; [exact Hret|].
  assert (Hcount : length (range 0 (length (skipn 9 rest)) 3)
                   = (length (skipn 9 rest) + 2) / 3) by apply range_length_3.
  rewrite range_spec in Ho, Hcount by lia.
  rewrite length_map, length_seq in Hcount.
  rewrite Hcount, map_map in Ho.
  split; [rewrite Ho, length_app, length_map, length_seq; reflexivity|].
  split; [|repeat split; assumption].
  rewrite Ho. f_equal. apply map_ext. intros i.
  unfold assemble, ecg_at. rewrite slice_from. reflexivity.
Qed.

Lemma acc_frame_outcome (self : app) (rest : list byte) :
  let payload := skipn 9 rest in
  let groups := map (fun i => i * 6) (seq 0 (length payload / 6)) in
  exists self',
    pmd_data_conv (x01 :: rest) self =
      (if length payload mod 6 =? 0
       then Returned self' else Raised StructError self') /\
    outlet self' =
      outlet self ++
      map (fun off =>
             carried_ecg self :: nan_to_zero (last_hr self)
               :: nan_to_zero (last_rri self) :: acc_triple payload off) groups /\
    last_acc self' = last (map (acc_triple payload) groups) (last_acc self) /\
    last_ecg self' = last_ecg self.
Proof.
  cbv zeta.
  destruct (@pmd_acc_frame (x01 :: rest) x01 self eq_refl eq_refl) as (Hret & _).
  cbv zeta in Hret. change (skipn 10 (x01 :: rest)) with (skipn 9 rest) in Hret.
  set (payload := skipn 9 rest) in *.
  set (groups := map (fun i => i * 6) (seq 0 (length payload / 6))) in *.
  destruct (acc_ticks payload groups self) as (Ho & _ & _ & He & _ & Ha).
  cbv zeta in Ho, He, Ha.
  destruct (length payload mod 6 =? 0).
  - exists (update_busy (fold_left (acc_tick payload) groups self)).
    split; [exact Hret|]. unfold update_busy.
    cbn [outlet last_acc last_ecg]. repeat split; assumption.
  - exists (fold_left (acc_tick payload) groups self).
    split; [exact Hret|]. repeat split; assumption.
Qed.

(** X2: an ACC frame makes one emission per whole 6-byte group of its
    sample region, each with the three values of the group as AccX, AccY,
    AccZ and with the carried ECG, HR and RRI values; it then returns when
    the region is a whole number of groups, and raises [struct.error] when
    bytes are left over. Either way [last_acc] is the last whole group and
    [last_ecg] is as before. *)
Theorem X2_acc_frame_groups (self : app) (rest : list byte) :
  let payload := skipn 9 rest in
  let groups := map (fun i => i * 6) (seq 0 (length payload / 6)) in
  exists self',
    pmd_data_conv (x01 :: rest) self =
      (if length payload mod 6 =? 0
       then Returned self' else Raised StructError self') /\
    outlet self' =
      outlet self ++
      map (fun off =>
             carried_ecg self :: nan_to_zero (last_hr self)
               :: nan_to_zero (last_rri self) :: acc_triple payload off) groups /\
    last_acc self' = last (map (acc_triple payload) groups) (last_acc self) /\
    last_ecg self' = last_ecg self.
Proof. exact (acc_frame_outcome self rest). Qed.

(** X3: every ECG value an ECG frame emits is an integer of the signed
    24-bit range, and the three accelerometer values of every vector an
    ACC frame emits are integers of the signed 16-bit range, also when the
    frame ends in a partial group. *)
Theorem X3_decoded_values_in_range (self : app) (rest : list byte) :
  (exists added,
      outlet (attributes (pmd_data_conv (x00 :: rest) self)) = outlet self ++ added /\
      Forall (fun vec => exists e, field ECG vec = Some e /\ int24 e) added) /\
  (exists added,
      outlet (attributes (pmd_data_conv (x01 :: rest) self)) = outlet self ++ added /\
      Forall (fun vec =>
                exists x y z,
                  field AccX vec = Some x /\ field AccY vec = Some y /\
                  field AccZ vec = Some z /\ int16 x /\ int16 y /\ int16 z)
             added).
Proof.
  split.
  - destruct (@pmd_ecg_frame (x00 :: rest) x00 self eq_refl eq_refl)
      as (self' & Hret & Ho & _).
    rewrite Hret. cbn [attributes]. eexists. split; [exact Ho|].
    apply Forall_map, Forall_forall. intros off _.
    exists (ecg_at (skipn 10 (x00 :: rest)) off).
    split; [reflexivity | apply ecg_at_int24].
  - destruct (acc_frame_outcome self rest) as (self' & Hret & Ho & _).
    cbv zeta in Hret, Ho. rewrite Hret.
    assert (Hattr : attributes
                      (if length (skipn 9 rest) mod 6 =? 0
                       then Returned self' else Raised StructError self') = self')
      by (destruct (length (skipn 9 rest) mod 6 =? 0); reflexivity).
    rewrite Hattr. eexists. split; [exact Ho|].
    apply Forall_map, Forall_forall. intros off _.
    pose proof (acc_triple_int16 (skipn 9 rest) off) as H3.
    unfold acc_triple in *.
    inversion H3 as [|? ? Hx H2]; subst. inversion H2 as [|? ? Hy H1]; subst.
    inversion H1 as [|? ? Hz _]; subst.
    do 3 eexists. repeat split; try reflexivity; assumption.
Qed.

End AnyFrame.

(** ** Invariance principles for the two callbacks *)

Section Principles.

Import HrSpec.

(** What holds before [pmd_data_conv] and is kept by each of its writes
    holds after it, however it ends. *)
Lemma pmd_data_conv_keeps (P : app -> Prop) (data : list byte) (self : app) :
  (forall s, P s -> P (update_busy s)) ->
  (forall e s, int24 e -> P s -> P (push e s)) ->
  (forall payload off s,
      P s -> P (push_last_ecg (set_last_acc (acc_triple payload off) s))) ->
  P self ->
  P (attributes (pmd_data_conv data self)).
Proof.
  intros Hbusy Hecg Hacc Hs. unfold pmd_data_conv.
  destruct (nth_error data 0) as [hdr|]; [|exact Hs].
  apply busy_after_loop; [exact Hbusy|].
  destruct (byte_val hdr =? 0)%Z; [|destruct (byte_val hdr =? 1)%Z].
  - apply for_each_invariant; [|exact Hs].
    intros off s HP. cbn [attributes].
    apply (Hecg (ecg_at (skipn 10 data) off) s (ecg_at_int24 _ _) HP).
  - apply for_each_invariant; [|exact Hs].
    intros off s HP. unfold unpack_from_hhh.
    destruct (off + 6 <=? length (skipn 10 data)); [|exact HP].
    cbn [attributes]. apply (Hacc (skipn 10 data) off s HP).
  - exact Hs.
Qed.

(** The same for [hrm_conv]. *)
Lemma hrm_conv_keeps (P : app -> Prop) (data : list byte) (self : app) :
  (forall hr s, (0 <= hr < 65536)%Z ->
                P s -> P (push_last_ecg (set_last_hr (Int hr) s))) ->
  (forall raw s, (0 <= raw < 65536)%Z -> P s -> P (rr_tick s raw)) ->
  P self ->
  P (attributes (hrm_conv data self)).
Proof.
  intros Hhr Hrr Hs. rewrite hrm_conv_decode.
  destruct (decode data) as [r|] eqn:Hdec; [|exact Hs].
  cbn [attributes]. unfold emit.
  pose proof (decode_rr_range _ Hdec) as Hrange.
  assert (Hstart : P (push_last_ecg (set_last_hr (Int (hr_value r)) self))).
  { apply Hhr; [|exact Hs].
    unfold decode in Hdec. destruct data as [|f rest]; [discriminate|].
    destruct (bit0 (byte_val f)).
    - injection Hdec as <-. cbn [hr_value].
      pose proof (from_bytes_little_range (firstn 2 rest)) as Hr.
      pose proof (firstn_le_length 2 rest) as Hl.
      assert (Hp : (2 ^ (8 * Z.of_nat (length (firstn 2 rest))) <= 2 ^ 16)%Z)
        by (apply Z.pow_le_mono_r; lia).
      change (2 ^ 16)%Z with 65536%Z in Hp.
      set (p := (2 ^ (8 * Z.of_nat (length (firstn 2 rest))))%Z) in *.
      clearbody p.
      change (0 <= from_bytes_little (firstn 2 rest) < 65536)%Z. lia.
    - destruct rest as [|b tl]; [discriminate|].
      injection Hdec as <-. cbn [hr_value].
      pose proof (byte_val_range b). lia. }
  revert Hstart Hrange. generalize (push_last_ecg (set_last_hr (Int (hr_value r)) self)).
  induction (rr_raw r) as [|raw raws IH]; intros s HP Hrange; cbn [fold_left].
  - exact HP.
  - inversion Hrange as [|? ? Hraw Hrest]; subst.
    apply IH; [apply Hrr; assumption | exact Hrest].
Qed.

Lemma busy_index_in_range (b : nat) :
  exists txt, nth_error Busy.busychars ((b + 1) mod 4) = Some txt.
Proof.
  pose proof (Nat.mod_upper_bound (b + 1) 4 ltac:(lia)) as Hlt.
  destruct ((b + 1) mod 4) as [|[|[|[|n]]]]; try (eexists; reflexivity). lia.
Qed.

Lemma pmd_data_conv_settled (data : list byte) (self : app) :
  settled (pmd_data_conv data self).
Proof.
  unfold pmd_data_conv. destruct (nth_error data 0) as [hdr|]; [|exact I].
  assert (H : forall o, settled o ->
                        settled (o >>= fun s => Returned (update_busy s)))
    by (intros [s|e s|s]; cbn; auto).
  apply H.
  destruct (byte_val hdr =? 0)%Z; [|destruct (byte_val hdr =? 1)%Z].
  - apply for_each_settled. intros; exact I.
  - apply for_each_settled. intros off s.
    destruct (unpack_from_hhh (skipn 10 data) off) as [[[x y] z]|]; exact I.
  - exact I.
Qed.

End Principles.

(** ** Errors, ownership and invariants of the callbacks *)

Section CallbackFacts.

Import HrSpec.

(** X4: [pmd_data_conv] raises in exactly two cases: [IndexError] on an
    empty payload, with nothing changed, and [struct.error] on an ACC frame
    (first byte 0x01) whose sample region is not a multiple of 6 bytes
    long. On every other payload it returns. *)
Theorem X4_pmd_data_conv_errors (self : app) (data : list byte) :
  match data with
  | [] => pmd_data_conv data self = Raised IndexError self
  | hdr :: rest =>
      if (byte_val hdr =? 1)%Z && negb (length (skipn 9 rest) mod 6 =? 0)
      then exists s, pmd_data_conv data self = Raised StructError s
      else exists s, pmd_data_conv data self = Returned s
  end.
Proof.
  destruct data as [|hdr rest]; [reflexivity|].
  destruct (byte_val hdr =? 0)%Z eqn:H0.
  - apply Z.eqb_eq in H0.
    destruct (@pmd_ecg_frame (hdr :: rest) hdr self eq_refl H0) as (s & Hret & _).
    rewrite H0. cbn [Z.eqb andb]. exists s. exact Hret.
  - destruct (byte_val hdr =? 1)%Z eqn:H1.
    + apply Z.eqb_eq in H1.
      destruct (@pmd_acc_frame (hdr :: rest) hdr self eq_refl H1) as (Hret & _).
      cbv zeta in Hret. change (skipn 10 (hdr :: rest)) with (skipn 9 rest) in Hret.
      cbn [andb]. rewrite Hret.
      destruct (length (skipn 9 rest) mod 6 =? 0); cbn [negb]; eexists; reflexivity.
    + cbn [andb]. unfold pmd_data_conv. cbn [nth_error]. rewrite H0, H1.
      eexists. reflexivity.
Qed.

(** X5: [hrm_conv] raises in exactly two cases, both [IndexError] with
    nothing changed: on an empty payload, and on a payload of the flags
    byte alone when bit 0 is clear. On every other payload it returns. *)
Theorem X5_hrm_conv_errors (self : app) (data : list byte) :
  match data with
  | [] => hrm_conv data self = Raised IndexError self
  | [f] =>
      if Z.testbit (byte_val f) 0
      then exists s, hrm_conv data self = Returned s
      else hrm_conv data self = Raised IndexError self
  | _ :: _ :: _ => exists s, hrm_conv data self = Returned s
  end.
Proof.
  rewrite hrm_conv_decode.
  destruct data as [|f [|b rest]]; [reflexivity| |];
    unfold decode, bit0; destruct (Z.testbit (byte_val f) 0);
    try (eexists; reflexivity); reflexivity.
Qed.

Lemma rr_values_length (bs : list byte) :
  length (rr_values bs) = length bs / 2.
Proof.
  remember (length bs) as n eqn:Hn.
  assert (Hle : length bs <= n) by lia.
  rewrite Hn. clear Hn. revert bs Hle.
  induction n as [|n IH]; intros bs Hle.
  - destruct bs; [reflexivity | simpl in Hle; lia].
  - destruct bs as [|lo [|hi tl]]; try reflexivity.
    cbn [rr_values length]. rewrite IH by (simpl in Hle; lia).
    change (S (S (length tl))) with (1 * 2 + length tl).
    rewrite Nat.div_add_l by lia. reflexivity.
Qed.

(** X6: for a heart-rate payload of a flags byte and [1 + n] further
    bytes, [hrm_conv] returns after exactly [1 + k] emissions, [k] being 0
    when flags bit 4 is clear and otherwise the number of whole byte pairs
    after the HR value: [n / 2] for an 8-bit HR, [(n - 1) / 2] for a
    16-bit HR. The stored HR is an integer below 256, or below 65536 when
    bit 0 is set. *)
Theorem X6_hr_emission_count (self : app) (f b1 : byte) (rest : list byte) :
  let wide := Z.testbit (byte_val f) 0 in
  exists self' hr,
    hrm_conv (f :: b1 :: rest) self = Returned self' /\
    last_hr self' = Int hr /\
    (0 <= hr < (if wide then 65536 else 256))%Z /\
    length (outlet self') =
      length (outlet self) + 1 +
      (if Z.testbit (byte_val f) 4
       then (length rest - (if wide then 1 else 0)) / 2
       else 0).
Proof.
  cbv zeta.
  destruct (hrm_conv_emits self f b1 rest) as (self' & Hret & Hh & _ & _ & _ & Ho).
  cbv zeta in Hh, Ho.
  exists self'. eexists. split; [exact Hret|]. split; [exact Hh|].
  pose proof (byte_val_range b1) as Hb1.
  split.
  - destruct (Z.testbit (byte_val f) 0); [|exact Hb1].
    destruct rest as [|b2 tl]; [lia|].
    pose proof (byte_val_range b2). lia.
  - rewrite Ho, length_app. cbn [length]. rewrite length_map.
    destruct (Z.testbit (byte_val f) 4); [|cbn [length]; lia].
    rewrite rr_values_length.
    destruct (Z.testbit (byte_val f) 0).
    + rewrite length_skipn. lia.
    + rewrite Nat.sub_0_r. lia.
Qed.

(** Checked on each of the 65536 raw values. *)
Lemma rri_ms_exact_checked :
  all_from (Z.to_nat 65536) 0
    (fun v =>
       PrimFloat.eqb (rri_ms v * 128) (float_of_int (125 * v))
       && PrimFloat.leb 0 (rri_ms v)
       && PrimFloat.ltb (rri_ms v) 64000) = true.
Proof. vm_compute. reflexivity. Qed.

(** X7: for every 16-bit raw RR value [v], the float
    [v / 1024.0 * 1000] is computed without rounding: 128 times it is the
    float of the integer [125 * v]. It is never negative and below 64000
    (milliseconds). *)
Theorem X7_rri_conversion_exact (raw : Z) :
  (0 <= raw < 65536)%Z ->
  PrimFloat.eqb (rri_ms raw * 128) (float_of_int (125 * raw)) = true /\
  PrimFloat.leb 0 (rri_ms raw) = true /\
  PrimFloat.ltb (rri_ms raw) 64000 = true.
Proof.
  intros Hraw.
  pose proof (@all_from_spec _ _ _ rri_ms_exact_checked raw) as H.
  cbv beta in H. rewrite Z2Nat.id in H by lia.
  specialize (H ltac:(lia)).
  apply andb_prop in H as [H H3]. apply andb_prop in H as [H1 H2].
  repeat split; assumption.
Qed.

(** X8: each callback writes only its own channels, however it ends:
    [pmd_data_conv] never changes [last_hr] or [last_rri], and [hrm_conv]
    never changes [last_acc], [last_ecg] or the busy indicator. *)
Theorem X8_channel_ownership (self : app) (data : list byte) :
  last_hr (attributes (pmd_data_conv data self)) = last_hr self /\
  last_rri (attributes (pmd_data_conv data self)) = last_rri self /\
  last_acc (attributes (hrm_conv data self)) = last_acc self /\
  last_ecg (attributes (hrm_conv data self)) = last_ecg self /\
  busyvalue (attributes (hrm_conv data self)) = busyvalue self.
Proof.
  assert (Hpmd : last_hr (attributes (pmd_data_conv data self)) = last_hr self /\
                 last_rri (attributes (pmd_data_conv data self)) = last_rri self).
  { apply (@pmd_data_conv_keeps
             (fun s => last_hr s = last_hr self /\ last_rri s = last_rri self)).
    - intros s Hs. exact Hs.
    - intros e s _ (Hh & Hr). destruct (push_keeps e s) as (H1 & H2 & _).
      split; congruence.
    - intros payload off s (Hh & Hr).
      destruct (carry_keeps (set_last_acc (acc_triple payload off) s))
        as (H1 & H2 & _).
      split; [rewrite H1 | rewrite H2]; assumption.
    - split; reflexivity. }
  assert (Hhrm : last_acc (attributes (hrm_conv data self)) = last_acc self /\
                 last_ecg (attributes (hrm_conv data self)) = last_ecg self /\
                 busyvalue (attributes (hrm_conv data self)) = busyvalue self).
  { apply (@hrm_conv_keeps
             (fun s => last_acc s = last_acc self /\ last_ecg s = last_ecg self /\
                       busyvalue s = busyvalue self)).
    - intros hr s _ (Ha & He & Hb).
      destruct (carry_keeps (set_last_hr (Int hr) s)) as (_ & _ & H3 & H4).
      rewrite carry_keeps_ecg, H3, H4. repeat split; assumption.
    - intros raw s _ (Ha & He & Hb). unfold rr_tick.
      destruct (carry_keeps (set_last_rri (Float (rri_ms raw)) s))
        as (_ & _ & H3 & H4).
      rewrite carry_keeps_ecg, H3, H4. repeat split; assumption.
    - repeat split. }
  destruct Hpmd as (? & ?). destruct Hhrm as (? & ? & ?).
  repeat split; assumption.
Qed.

Lemma push_ecg_stored_ok (e : num) (s : app) :
  int24 e -> ecg_stored_ok s -> ecg_stored_ok (push e s).
Proof.
  intros (z & -> & Hz) Hs e'. rewrite push_sets_ecg.
  cbn [isnan negb andb ne_zero].
  destruct (z =? 0)%Z eqn:Hz0; cbn [negb]; [apply Hs|].
  intros [= <-]. exists z. apply Z.eqb_neq in Hz0. auto.
Qed.

Lemma callback_ecg_stored_ok (n : notification) (s : app) :
  ecg_stored_ok s -> ecg_stored_ok (attributes (callback n s)).
Proof.
  intros Hs. destruct n as [data|data]; cbn [callback].
  - apply pmd_data_conv_keeps; [| | |exact Hs].
    + intros s' H. exact H.
    + intros e s'. apply push_ecg_stored_ok.
    + intros payload off s' H e. rewrite carry_keeps_ecg. apply H.
  - apply hrm_conv_keeps; [| |exact Hs].
    + intros hr s' _ H e. rewrite carry_keeps_ecg. apply H.
    + intros raw s' _ H e. unfold rr_tick. rewrite carry_keeps_ecg. apply H.
Qed.

Lemma callback_keeps_ecg_set (n : notification) (s : app) :
  last_ecg s <> None -> last_ecg (attributes (callback n s)) <> None.
Proof.
  assert (Hpush : forall e s', last_ecg s' <> None -> last_ecg (push e s') <> None).
  { intros e s' H. rewrite push_sets_ecg.
    destruct (negb (isnan e) && ne_zero e); [discriminate | exact H]. }
  intros Hs. destruct n as [data|data]; cbn [callback].
  - apply pmd_data_conv_keeps; [| | |exact Hs].
    + intros s' H. exact H.
    + intros e s' _. apply Hpush.
    + intros payload off s' H. rewrite carry_keeps_ecg. exact H.
  - apply hrm_conv_keeps; [| |exact Hs].
    + intros hr s' _ H. rewrite carry_keeps_ecg. exact H.
    + intros raw s' _ H. unfold rr_tick. rewrite carry_keeps_ecg. exact H.
Qed.

(** X9: whatever notifications have been delivered since
    [connect_to_device], a stored [last_ecg] is a decoded ECG sample: an
    integer of the signed 24-bit range other than 0, never a float and
    never NaN. Once the attribute exists, no callback removes it. *)
Theorem X9_last_ecg_is_a_nonzero_sample (ns : list notification) (n : notification) :
  (forall e, last_ecg (deliver ns connect_to_device) = Some e ->
             exists z, e = Int z /\ z <> 0%Z /\ (-8388608 <= z <= 8388607)%Z) /\
  (last_ecg (deliver ns connect_to_device) <> None ->
   last_ecg (deliver (ns ++ [n]) connect_to_device) <> None).
Proof.
  split.
  - change (ecg_stored_ok (deliver ns connect_to_device)).
    unfold deliver. apply fold_left_invariant.
    + intros s m. apply callback_ecg_stored_ok.
    + intros e. discriminate.
  - unfold deliver. rewrite fold_left_app. cbn [fold_left].
    apply callback_keeps_ecg_set.
Qed.

End CallbackFacts.

(** ** Frames without samples, the busy indicator, later sessions *)

Section SessionFacts.

Import Session.

(** X13: each run of the body of [update_busy] moves [busyvalue] one step
    round its four frames and changes nothing else. Whatever [busyvalue]
    was, after [k >= 1] runs it is [(busyvalue + k) mod 4], a valid index
    into [busychars], so the label assignment never indexes out of range;
    nothing is given to the sink and the cached values are as before. *)
Theorem X13_busy_indicator (self : app) (k : nat) :
  let self' := Nat.iter (S k) update_busy self in
  busyvalue self' = (busyvalue self + S k) mod 4 /\
  (exists txt, Busy.label_text self' = Some txt) /\
  outlet self' = outlet self /\
  last_hr self' = last_hr self /\
  last_rri self' = last_rri self /\
  last_acc self' = last_acc self /\
  last_ecg self' = last_ecg self.
Proof.
  cbv zeta. induction k as [|k IH].
  - cbn [Nat.iter]. split; [reflexivity|].
    split; [apply busy_index_in_range | repeat split].
  - destruct IH as (Hb & _ & Ho & Hh & Hr & Ha & He).
    change (Nat.iter (S (S k)) update_busy self)
      with (update_busy (Nat.iter (S k) update_busy self)).
    set (s := Nat.iter (S k) update_busy self) in *.
    assert (Hstep : busyvalue (update_busy s) = (busyvalue self + S (S k)) mod 4).
    { unfold update_busy. cbn [busyvalue]. rewrite Hb.
      rewrite Nat.Div0.add_mod_idemp_l. f_equal. lia. }
    split; [exact Hstep|]. split.
    + unfold Busy.label_text. unfold update_busy. cbn [busyvalue].
      apply busy_index_in_range.
    + unfold update_busy. cbn [outlet last_hr last_rri last_acc last_ecg].
      repeat split; assumption.
Qed.

(** X14: a combined-data payload of at most 10 bytes has an empty sample
    region: whatever its type tag, [pmd_data_conv] returns without any
    emission and without changing any value but the busy indicator. *)
Theorem X14_header_only_frame (self : app) (hdr : byte) (rest : list byte) :
  length rest <= 9 ->
  pmd_data_conv (hdr :: rest) self = Returned (update_busy self).
Proof.
  intros Hlen. unfold pmd_data_conv. cbn [nth_error].
  change (skipn 10 (hdr :: rest)) with (skipn 9 rest).
  rewrite skipn_all2 by exact Hlen.
  destruct (byte_val hdr =? 0)%Z; [|destruct (byte_val hdr =? 1)%Z]; reflexivity.
Qed.

(** X15: values are carried from one callback to the next: after a
    heart-rate notification with HR value [hr], every vector of the ECG
    frame delivered next reports that HR, whatever the earlier one was. *)
Theorem X15_hr_is_carried_into_ecg_vectors
        (self : app) (f b1 : byte) (rest ecg_rest : list byte) :
  exists s1 s2 hr added,
    hrm_conv (f :: b1 :: rest) self = Returned s1 /\
    last_hr s1 = Int hr /\
    pmd_data_conv (x00 :: ecg_rest) s1 = Returned s2 /\
    outlet s2 = outlet s1 ++ added /\
    length added = (length (skipn 9 ecg_rest) + 2) / 3 /\
    Forall (fun vec => field HR vec = Some (Int hr)) added.
Proof.
  destruct (hrm_conv_emits self f b1 rest) as (s1 & Hret1 & Hh & _).
  cbv zeta in Hh.
  destruct (@pmd_ecg_frame (x00 :: ecg_rest) x00 s1 eq_refl eq_refl)
    as (s2 & Hret2 & Ho & _).
  exists s1, s2. do 2 eexists.
  split; [exact Hret1|]. split; [exact Hh|]. split; [exact Hret2|].
  split; [exact Ho|]. split.
  - rewrite length_map. apply range_length_3.
  - apply Forall_map, Forall_forall. intros off _.
    unfold field, assemble. cbn [index nth_error]. rewrite Hh. reflexivity.
Qed.

(** X10: [connect_to_device] does not reset [last_ecg]. In a later session
    on the same application object, started after the notifications [ns0]
    of the first one, every vector emitted before the first ECG frame
    carries the last ECG value of the earlier session (0.0 only if there
    was none), while its length is still 6 and no element is NaN. *)
Theorem X10_later_session_carries_old_ecg (ns0 ns : list notification) :
  forallb (fun n => negb (is_ecg_frame n)) ns = true ->
  let before := deliver ns0 connect_to_device in
  let later := deliver ns (connect_to_device_again before) in
  Forall (fun vec =>
            field ECG vec =
              Some (match last_ecg before with Some e => e | None => Float 0 end) /\
            length vec = 6 /\
            Forall (fun x => isnan x = false) vec)
         (outlet later).
Proof.
  intros Hns. cbv zeta.
  set (before := deliver ns0 connect_to_device).
  assert (Hsound : sound (connect_to_device_again before)).
  { destruct (deliver_sound ns0 connect_to_device_sound) as (_ & Hstored & _).
    repeat split; [exact Hstored | constructor]. }
  destruct (deliver_sound ns Hsound) as (_ & _ & Hnum).
  assert (Hcar : carries (carried_ecg before) [] (connect_to_device_again before)).
  { split; [reflexivity|]. exists []. split; [reflexivity | constructor]. }
  destruct (deliver_carries ns Hns Hcar) as (_ & added & Ho & Hall).
  rewrite Ho in *. cbn [List.app] in *.
  rewrite Forall_forall in *. intros vec Hin.
  destruct (Hnum vec Hin) as (Hlen & Hnan).
  split; [exact (Hall vec Hin)|]. split; assumption.
Qed.


(** X12: a subscription is issued only after the read and both command
    writes succeeded, and an unsubscription only after both subscriptions
    succeeded and the stop event was set: when subscribing to the
    heart-rate characteristic fails, the combined-data subscription is
    not undone before the disconnect. *)
Theorem X12_subscriptions_need_the_handshake (env : transport) :
  (if existsb is_start_notify (async_connect env)
   then fails env connect = false /\
        fails env (read_gatt_char PMD_CONTROL) = false /\
        fails env (write_gatt_char PMD_CONTROL ECG_WRITE) = false /\
        fails env (write_gatt_char PMD_CONTROL ACC_WRITE) = false
   else True) /\
  (if existsb is_stop_notify (async_connect env)
   then stop_set env = true /\
        fails env (start_notify PMD_DATA on_pmd_data) = false /\
        fails env (start_notify HRM_CHAR on_hrm) = false /\
        fails env wait_stop_event = false
   else True).
Proof.
  destruct env as [fails stop]. unfold async_connect, body.
  cbn [Session.fails Session.stop_set existsb awaits is_wait andb negb orb].
  split;
    repeat match goal with
           | |- context [fails ?op] => destruct (fails op) eqn:?; cbn
           end;
    destruct stop; cbn; repeat split; try exact I; try assumption; reflexivity.
Qed.

End SessionFacts.

(** ** The further properties on sample inputs *)

Section MoreOnSamples.

Import Samples.

Lemma X7_rri_conversion_exact_witness :
  (0 <= 10 < 65536)%Z /\
  rri_ms 10 = 9.765625%float /\
  PrimFloat.eqb (rri_ms 10 * 128) (float_of_int (125 * 10)) = true /\
  PrimFloat.leb 0 (rri_ms 10) = true /\
  PrimFloat.ltb (rri_ms 10) 64000 = true.
Proof.
  split; [lia|]. split; [reflexivity|].
  exact (@X7_rri_conversion_exact 10 ltac:(lia)).
Defined.

Lemma X9_last_ecg_is_a_nonzero_sample_witness :
  last_ecg (deliver [PmdNotification ecg_frame] connect_to_device) = Some (Int 3) /\
  (exists z, Int 3 = Int z /\ z <> 0%Z /\ (-8388608 <= z <= 8388607)%Z) /\
  last_ecg (deliver ([PmdNotification ecg_frame] ++ [HrmNotification hrm_payload])
                    connect_to_device) <> None.
Proof.
  destruct (X9_last_ecg_is_a_nonzero_sample
              [PmdNotification ecg_frame] (HrmNotification hrm_payload))
    as (Hrange & Hkept).
  split; [reflexivity|]. split.
  - apply Hrange. reflexivity.
  - apply Hkept. discriminate.
Defined.

Lemma X10_later_session_carries_old_ecg_witness :
  forallb (fun n => negb (is_ecg_frame n))
          [HrmNotification hrm_payload; PmdNotification acc_frame] = true /\
  last_ecg (deliver [PmdNotification ecg_frame] connect_to_device) = Some (Int 3) /\
  length (outlet (deliver [HrmNotification hrm_payload; PmdNotification acc_frame]
                          (connect_to_device_again
                             (deliver [PmdNotification ecg_frame] connect_to_device))))
    = 3 /\
  Forall (fun vec => field ECG vec = Some (Int 3) /\ length vec = 6)
         (outlet (deliver [HrmNotification hrm_payload; PmdNotification acc_frame]
                          (connect_to_device_again
                             (deliver [PmdNotification ecg_frame] connect_to_device)))).
Proof.
  split; [reflexivity|]. split; [reflexivity|]. split; [reflexivity|].
  pose proof (@X10_later_session_carries_old_ecg
                [PmdNotification ecg_frame]
                [HrmNotification hrm_payload; PmdNotification acc_frame]
                eq_refl) as H.
  cbv zeta in H. eapply Forall_impl; [|exact H].
  intros vec (Hecg & Hlen & _). split; assumption.
Defined.

Lemma X14_header_only_frame_witness :
  length meta <= 9 /\
  pmd_data_conv (x00 :: meta) streaming = Returned (update_busy streaming) /\
  pmd_data_conv (x01 :: meta) streaming = Returned (update_busy streaming) /\
  outlet (update_busy streaming) = [].
Proof.
  assert (H : length meta <= 9) by (vm_compute; lia).
  split; [exact H|].
  split; [exact (@X14_header_only_frame streaming x00 meta H)|].
  split; [exact (@X14_header_only_frame streaming x01 meta H) | reflexivity].
Defined.

End MoreOnSamples.

(** ** The ECG value carried after a frame *)

Section CarriedAfterFrame.

Import Samples.

(** X16: after an ECG frame of whole samples whose last sample is not 0,
    that sample is [last_ecg], and every vector emitted by the heart-rate
    and accelerometer notifications that follow, up to the next ECG
    frame, has it as its ECG field. *)
Theorem X16_last_sample_is_carried
        (self : app) (meta samples group : list byte) (n : nat)
        (ns : list notification) :
  length meta = 9 ->
  length samples = n * 3 ->
  length group = 3 ->
  from_bytes_little_signed group <> 0%Z ->
  forallb (fun m => negb (is_ecg_frame m)) ns = true ->
  exists self' added,
    pmd_data_conv (x00 :: meta ++ samples ++ group) self = Returned self' /\
    last_ecg self' = Some (Int (from_bytes_little_signed group)) /\
    outlet (deliver ns self') = outlet self' ++ added /\
    Forall (fun vec => field ECG vec = Some (Int (from_bytes_little_signed group)))
           added.
Proof.
  intros Hmeta Hsamples Hgroup Hnz Hns.
  assert (Hskip : skipn 10 (x00 :: meta ++ samples ++ group) = samples ++ group).
  { change (skipn 9 (meta ++ samples ++ group) = samples ++ group).
    rewrite skipn_app, Hmeta, Nat.sub_diag, skipn_all2 by lia. reflexivity. }
  assert (Hlast : ecg_at (samples ++ group) (n * 3)
                  = Int (from_bytes_little_signed group)).
  { unfold ecg_at. rewrite slice_from, skipn_app, Hsamples, Nat.sub_diag.
    rewrite skipn_all2 by lia. cbn [List.app skipn].
    rewrite firstn_all2 by lia. reflexivity. }
  set (z := from_bytes_little_signed group) in *.
  assert (Hret : exists self',
             pmd_data_conv (x00 :: meta ++ samples ++ group) self = Returned self' /\
             last_ecg self' = Some (Int z)).
  { unfold pmd_data_conv. cbn [nth_error].
    change (byte_val x00 =? 0)%Z with true. cbv iota zeta. rewrite Hskip.
    rewrite length_app, Hsamples, Hgroup.
    replace (n * 3 + 3) with ((n + 1) * 3) by lia.
    rewrite range_exact by lia. rewrite seq_app, map_app. cbn [seq map Nat.add].
    rewrite (for_each_returns (fun off s => push (ecg_at (samples ++ group) off) s))
      by reflexivity.
    cbn [bind]. eexists. split; [reflexivity|].
    rewrite fold_left_app. cbn [fold_left]. unfold update_busy. cbn [last_ecg].
    rewrite push_sets_ecg, Hlast. cbn [isnan ne_zero negb andb].
    apply Z.eqb_neq in Hnz. rewrite Hnz. reflexivity. }
  destruct Hret as (self' & Hret & He).
  assert (Hcar : carries (Int z) (outlet self') self').
  { split; [unfold carried_ecg; rewrite He; reflexivity|].
    exists []. rewrite app_nil_r. split; [reflexivity | constructor]. }
  destruct (deliver_carries ns Hns Hcar) as (_ & added & Ho & Hall).
  exists self', added. repeat split; assumption.
Qed.

Lemma X16_last_sample_is_carried_witness :
  length meta = 9 /\
  length (firstn 27 ecg_samples) = 9 * 3 /\
  length [x03; x00; x00] = 3 /\
  from_bytes_little_signed [x03; x00; x00] = 3%Z /\
  exists self' added,
    pmd_data_conv (x00 :: meta ++ firstn 27 ecg_samples ++ [x03; x00; x00])
                  connect_to_device = Returned self' /\
    last_ecg self' = Some (Int 3) /\
    outlet (deliver [HrmNotification hrm_payload; PmdNotification acc_frame] self')
      = outlet self' ++ added /\
    Forall (fun vec => field ECG vec = Some (Int 3)) added.
Proof.
  split; [reflexivity|]. split; [reflexivity|]. split; [reflexivity|].
  split; [reflexivity|].
  exact (@X16_last_sample_is_carried
           connect_to_device meta (firstn 27 ecg_samples) [x03; x00; x00] 9
           [HrmNotification hrm_payload; PmdNotification acc_frame]
           eq_refl eq_refl eq_refl ltac:(vm_compute; discriminate) eq_refl).
Defined.

End CarriedAfterFrame.
